(** * AnimalClassifying: the training script and the CNN, as a shallow embedding

    Sources: [classification_train.py] (the epoch loop, the validation
    metrics, checkpointing, the learning-rate schedule, the directory set-up)
    and [classification_models.py] (the network, at the level of tensor
    shapes).

    Conventions of the embedding.
    - Python floats that the script compares or stores (accuracy, learning
      rate, logits) are exact rationals [Q]; the one float that is not a
      number, the mean of an empty array, is [NaN].  Rounding is not modelled.
    - Cross-entropy losses and the weights of the network are not computed:
      the tensors are a type parameter, one training pass is a function
      parameter, and the logits of the network on the validation loader are a
      function parameter.  The loss values sent to the writer are left out of
      the trace of a run; the steps under which the training loss is sent
      are [Loader.loss_steps].
    - Library calls are embedded by what their documentation says they do:
      [accuracy_score] and [confusion_matrix] of scikit-learn, [argmax],
      [MultiStepLR], [load_state_dict], [save] and [load] of PyTorch, the
      shape rules of the [torch.nn] layers, and [isdir], [isfile], [mkdir],
      [rmtree], [join] of [os] and [shutil].
    - Fallible steps return [result]; a Python exception is [Raise].
    - The file system is a finite map from path strings to nodes. *)

From Stdlib Require Import QArith Qpower ZifyNat.
From stdpp Require Import gmap strings list fin_maps.

Open Scope nat_scope.

(** ** Exceptions and the error monad *)

Inductive exn : Type :=
  | ValueError
  | RuntimeError
  | FileExistsError
  | FileNotFoundError
  | IsADirectoryError
  | UnpicklingError.

Inductive result (A : Type) : Type :=
  | Ok (a : A)
  | Raise (e : exn).
Arguments Ok {A} a.
Arguments Raise {A} e.

Definition bind {A B : Type} (r : result A) (k : A → result B) : result B :=
  match r with
  | Ok a => k a
  | Raise e => Raise e
  end.

Notation "'do' x <- r ; k" := (bind r (λ x, k))
  (at level 10, x pattern, r at level 100, k at level 200).

(** ** Python floats, idealised *)

Inductive pyfloat : Type :=
  | Num (q : Q)
  | NaN.

(** [a > b] on floats: false as soon as one side is not a number. *)
Definition py_gt (a : pyfloat) (b : Q) : bool :=
  match a with
  | Num x => negb (Qle_bool x b)
  | NaN => false
  end.

(** ** Validation metrics (lines 141-160 of [train]) *)

Module Metrics.

(** The logits of one sample: the class dimension of the network's output,
    which has at least one entry. *)
Definition logits : Type := Q * list Q.

(** [torch.argmax(predictions, 1)] on one row: the index of the first
    maximal entry. *)
Fixpoint argmax_from (best : Q) (besti i : nat) (l : list Q) : nat :=
  match l with
  | [] => besti
  | x :: r =>
      if Qle_bool x best then argmax_from best besti (S i) r
      else argmax_from x i (S i) r
  end.

Definition argmax (v : logits) : nat := argmax_from (fst v) 0 1 (snd v).

(** One validation batch after the forward pass: per sample, the logits and
    the ground-truth label. *)
Definition batch : Type := list (logits * nat).

(** The validation loop: [all_gts.extend(labels.tolist())] and
    [all_predictions.extend(max_idx.tolist())], batch after batch. *)
Definition validation_step (acc : list nat * list nat) (b : batch)
  : list nat * list nat :=
  (acc.1 ++ map snd b, acc.2 ++ map (λ s, argmax (fst s)) b).

Definition validation_loop (batches : list batch) : list nat * list nat :=
  fold_left validation_step batches ([], []).

(** [sklearn.metrics.accuracy_score(y_true, y_pred)]: the mean of the
    element-wise comparison; inputs of different lengths are refused; the mean
    of no element is not a number. *)
Definition score (y_true y_pred : list nat) : list bool :=
  zip_with Nat.eqb y_true y_pred.

Definition count_true (l : list bool) : nat :=
  length (filter (λ b, b = true) l).

Definition fraction (c n : nat) : Q :=
  (inject_Z (Z.of_nat c) / inject_Z (Z.of_nat n))%Q.

Definition mean (l : list bool) : pyfloat :=
  match l with
  | [] => NaN
  | _ => Num (fraction (count_true l) (length l))
  end.

Definition accuracy_score (y_true y_pred : list nat) : result pyfloat :=
  if length y_true =? length y_pred
  then Ok (mean (score y_true y_pred))
  else Raise ValueError.

(** [sklearn.metrics.confusion_matrix(y_true, y_pred)] with no [labels]
    argument: the matrix is indexed by the labels that occur in [y_true] or
    [y_pred], in ascending order. *)
Fixpoint insert_label (x : nat) (l : list nat) : list nat :=
  match l with
  | [] => [x]
  | y :: r =>
      if x <? y then x :: l
      else if x =? y then l
      else y :: insert_label x r
  end.

Definition unique_labels (y_true y_pred : list nat) : list nat :=
  foldr insert_label [] (y_true ++ y_pred).

Definition cell (pairs : list (nat * nat)) (t p : nat) : nat :=
  length (filter (λ tp, tp = (t, p)) pairs).

Definition confusion_matrix (y_true y_pred : list nat)
  : result (list (list nat)) :=
  if length y_true =? length y_pred
  then
    let labels := unique_labels y_true y_pred in
    let pairs := zip y_true y_pred in
    Ok (map (λ t, map (λ p, cell pairs t p) labels) labels)
  else Raise ValueError.

(** The quantities the validation metrics are compared with: the samples
    of all batches, those whose predicted label is the ground truth, and
    the number of samples. *)
Definition predicted (s : logits * nat) : nat := argmax (fst s).

Definition correct (batches : list batch) : nat :=
  length (filter (λ s, predicted s = snd s) (concat batches)).

Definition total (batches : list batch) : nat :=
  sum_list (map length batches).

(** How often [x] occurs in a list of labels, the sum of a row and the
    trace of a matrix. *)
Definition occurs (x : nat) (l : list nat) : nat :=
  length (filter (λ y, y = x) l).

Definition row_sum (cm : list (list nat)) (i : nat) : nat :=
  sum_list (default [] (cm !! i)).

Definition matrix_trace (cm : list (list nat)) : nat :=
  sum_list (imap (λ i row, default 0 (row !! i)) cm).

Definition matches (y_true y_pred : list nat) : nat :=
  count_true (score y_true y_pred).

(** Strictly ascending lists of labels. *)
Fixpoint ascending (l : list nat) : Prop :=
  match l with
  | [] => True
  | x :: r => Forall (λ y, x < y) r ∧ ascending r
  end.

End Metrics.

(** ** The network, at the level of tensor shapes ([classification_models.py]) *)

Module Net.

Definition shape : Type := list nat.

Inductive layer : Type :=
  | Conv2d (in_channels out_channels kernel_size padding : nat)
  | BatchNorm2d (num_features : nat)
  | LeakyReLU
  | MaxPool2d (kernel_size : nat)
  | Dropout
  | Linear (in_features out_features : nat)
  | Softmax.

(** Layers that turn scores into probabilities.  [CNN] has none. *)
Definition normalizes (l : layer) : bool :=
  match l with
  | Softmax => true
  | _ => false
  end.

(** The shape rule of each layer; [training] is the mode of the module
    ([model.train()] / [model.eval()]), which matters to batch normalisation
    only. *)
Definition conv_out (n k p : nat) : nat := n + 2 * p - k + 1.

Definition apply_layer (training : bool) (l : layer) (x : shape) : result shape :=
  match l with
  | Conv2d cin cout k p =>
      match x with
      | [b; c; h; w] =>
          if negb (c =? cin) then Raise RuntimeError
          else if (h + 2 * p <? k) || (w + 2 * p <? k) then Raise RuntimeError
          else Ok [b; cout; conv_out h k p; conv_out w k p]
      | [c; h; w] =>
          if negb (c =? cin) then Raise RuntimeError
          else if (h + 2 * p <? k) || (w + 2 * p <? k) then Raise RuntimeError
          else Ok [cout; conv_out h k p; conv_out w k p]
      | _ => Raise RuntimeError
      end
  | BatchNorm2d nf =>
      match x with
      | [b; c; h; w] =>
          if negb (c =? nf) then Raise RuntimeError
          else if training && (b * (h * w) =? 1) then Raise ValueError
          else Ok x
      | _ => Raise ValueError
      end
  | LeakyReLU => Ok x
  | MaxPool2d k =>
      match x with
      | [b; c; h; w] =>
          if (h / k =? 0) || (w / k =? 0) then Raise RuntimeError
          else Ok [b; c; h / k; w / k]
      | [c; h; w] =>
          if (h / k =? 0) || (w / k =? 0) then Raise RuntimeError
          else Ok [c; h / k; w / k]
      | _ => Raise RuntimeError
      end
  | Dropout => Ok x
  | Linear fin fout =>
      match reverse x with
      | d :: front =>
          if d =? fin then Ok (reverse (fout :: front)) else Raise RuntimeError
      | [] => Raise RuntimeError
      end
  | Softmax => Ok x
  end.

(** [nn.Sequential]: the layers in order. *)
Fixpoint sequential (training : bool) (ls : list layer) (x : shape) : result shape :=
  match ls with
  | [] => Ok x
  | l :: rest => do y <- apply_layer training l x; sequential training rest y
  end.

(** [x.view(x.shape[0], -1)]. *)
Definition view_flat (x : shape) : result shape :=
  match x with
  | [] => Raise RuntimeError
  | b :: rest => if b =? 0 then Raise RuntimeError else Ok [b; foldr Nat.mul 1 rest]
  end.

Definition make_block (in_channels out_channels : nat) : list layer :=
  [ Conv2d in_channels out_channels 3 0;
    BatchNorm2d out_channels;
    LeakyReLU;
    Conv2d out_channels out_channels 3 0;
    BatchNorm2d out_channels;
    LeakyReLU;
    MaxPool2d 2 ].

Record CNN : Type := {
  conv1 : list layer;
  conv2 : list layer;
  conv3 : list layer;
  conv4 : list layer;
  fc1 : list layer;
  fc2 : list layer;
  fc3 : list layer
}.

(** [CNN.__init__]. *)
Definition CNN_init (num_classes : nat) : CNN := {|
  conv1 := make_block 3 16;
  conv2 := make_block 16 32;
  conv3 := make_block 32 64;
  conv4 := make_block 64 64;
  fc1 := [Dropout; Linear 5184 1024; LeakyReLU];
  fc2 := [Dropout; Linear 1024 512; LeakyReLU];
  fc3 := [Dropout; Linear 512 num_classes]
|}.

(** The first half of [CNN.forward]: the four blocks and the flattening. *)
Definition features (training : bool) (m : CNN) (x : shape) : result shape :=
  do x <- sequential training (conv1 m) x;
  do x <- sequential training (conv2 m) x;
  do x <- sequential training (conv3 m) x;
  do x <- sequential training (conv4 m) x;
  view_flat x.

(** The second half: the three dense stages. *)
Definition classifier (training : bool) (m : CNN) (x : shape) : result shape :=
  do x <- sequential training (fc1 m) x;
  do x <- sequential training (fc2 m) x;
  sequential training (fc3 m) x.

(** [CNN.forward]. *)
Definition forward (training : bool) (m : CNN) (x : shape) : result shape :=
  do x <- features training m x;
  classifier training m x.

Definition layers (m : CNN) : list layer :=
  conv1 m ++ conv2 m ++ conv3 m ++ conv4 m ++ fc1 m ++ fc2 m ++ fc3 m.

(** A batch of [b] RGB images of [s] by [s] pixels, as [Resize((s, s))]
    makes them. *)
Definition rgb_batch (b s : nat) : shape := [b; 3; s; s].

(** The side of the feature map that one block makes of a side [n], and the
    number of features that [view] makes of 64 maps of [s] by [w]. *)
Definition block_side (n : nat) : nat := (n - 4) / 2.

Definition flat_size (s w : nat) : nat := 64 * (s * (w * 1)).

End Net.

(** ** The file system seen by the script *)

Module FS.

(** Paths are strings; they are taken normalised (no trailing separator, no
    [.] or [..] component).  A node is a directory or a file with its
    content. *)
Inductive node (C : Type) : Type :=
  | Dir
  | File (c : C).
Arguments Dir {C}.
Arguments File {C} c.

Section Ops.
Context {C : Type}.
Implicit Types (fs : gmap string (node C)) (p q : string).

(** The empty path names nothing. *)
Definition stat fs p : option (node C) :=
  if decide (p = EmptyString) then None else fs !! p.

(** [os.path.isdir] and [os.path.isfile]. *)
Definition isdir fs p : bool :=
  match stat fs p with
  | Some Dir => true
  | _ => false
  end.

Definition isfile fs p : bool :=
  match stat fs p with
  | Some (File _) => true
  | _ => false
  end.

(** [os.path.dirname]; the empty result stands for the directory a relative
    path starts from, which is always there. *)
Definition sep : Ascii.ascii := Ascii.ascii_of_nat 47.

Fixpoint has_sep p : bool :=
  match p with
  | EmptyString => false
  | String c r => Ascii.eqb c sep || has_sep r
  end.

Fixpoint dirname p : string :=
  match p with
  | EmptyString => EmptyString
  | String c r => if has_sep r then String c (dirname r) else EmptyString
  end.

Definition parent_ok fs p : bool :=
  if decide (dirname p = EmptyString) then true else isdir fs (dirname p).

(** [os.path.join(a, b)] for a relative [b]. *)
Definition join (a b : string) : string :=
  if decide (a = EmptyString) then b else a +:+ "/" +:+ b.

(** [q] is [p] or lies below [p]. *)
Definition within p q : bool :=
  bool_decide (q = p) || String.prefix (p +:+ "/") q.

(** [shutil.rmtree(p)] on a directory [p]: the directory and all below it
    go. *)
Definition rmtree fs p : gmap string (node C) :=
  filter (λ kv, negb (within p kv.1)) fs.

(** [os.mkdir(p)]. *)
Definition mkdir fs p : result (gmap string (node C)) :=
  if decide (p = EmptyString) then Raise FileNotFoundError
  else match fs !! p with
       | Some _ => Raise FileExistsError
       | None =>
           if parent_ok fs p then Ok (<[p := Dir]> fs)
           else Raise FileNotFoundError
       end.

(** Opening [p] for writing and storing [c] there, as [torch.save] does. *)
Definition write_file fs p (c : C) : result (gmap string (node C)) :=
  if decide (p = EmptyString) then Raise FileNotFoundError
  else if isdir fs p then Raise IsADirectoryError
  else if parent_ok fs p then Ok (<[p := File c]> fs)
  else Raise FileNotFoundError.

End Ops.

End FS.

(** ** The training script ([classification_train.py]) *)

Module Train.

(** The command line ([get_args]). *)
Record args : Type := {
  data_path : string;
  batch_size : nat;
  epochs : nat;
  lr : Q;
  image_size : nat;
  checkpoint_path : option string;
  tensorboard_path : string;
  trained_path : string
}.

Definition default_args : args := {|
  data_path := "data/animals";
  batch_size := 16;
  epochs := 100;
  lr := 1 # 100;
  image_size := 224;
  checkpoint_path := None;
  tensorboard_path := "tensorboard";
  trained_path := "trained_models"
|}.

Section Run.

(** [W]: the parameters of the network; [M]: the moment estimates of Adam.
    [train_pass epoch lr (w, m)] is the effect of the training half of an
    epoch (lines 118-136); [val_outputs w] is what the network with
    parameters [w] answers on the validation loader, batch by batch, next to
    the labels. *)
Variables W M : Type.
Variable train_pass : nat → Q → W * M → W * M.
Variable val_outputs : W → list Metrics.batch.

(** [model.state_dict()]: the shapes depend on the number of classes only. *)
Record model_state : Type := {
  num_classes : nat;
  weights : W
}.

(** [optimizer.state_dict()]: the parameter group and the moments. *)
Record optim_state : Type := {
  group_lr : Q;
  initial_lr : option Q;
  moments : M
}.

(** [MultiStepLR]. *)
Record lr_scheduler : Type := {
  milestones : list Z;
  gamma : Q;
  base_lr : Q;
  last_epoch : Z
}.

Definition occurrences (ms : list Z) (e : Z) : nat :=
  length (filter (λ m, m = e) ms).

Definition get_lr (s : lr_scheduler) (o : optim_state) : Q :=
  if bool_decide (last_epoch s ∈ milestones s)
  then (group_lr o * gamma s ^ Z.of_nat (occurrences (milestones s) (last_epoch s)))%Q
  else group_lr o.

(** [scheduler.step()]. *)
Definition scheduler_step (s : lr_scheduler) (o : optim_state)
  : lr_scheduler * optim_state :=
  let s' := {| milestones := milestones s; gamma := gamma s;
               base_lr := base_lr s; last_epoch := (last_epoch s + 1)%Z |} in
  (s', {| group_lr := get_lr s' o; initial_lr := initial_lr o;
          moments := moments o |}).

(** The constructor: the group gets its [initial_lr] if it has none, the
    counter starts at -1 and one step is taken. *)
Definition MultiStepLR (o : optim_state) (ms : list Z) (g : Q)
  : lr_scheduler * optim_state :=
  let base := default (group_lr o) (initial_lr o) in
  scheduler_step
    {| milestones := ms; gamma := g; base_lr := base; last_epoch := (-1)%Z |}
    {| group_lr := group_lr o; initial_lr := Some base; moments := moments o |}.

(** The record that [torch.save] writes. *)
Record checkpoint : Type := {
  ck_model : model_state;
  ck_optimizer : optim_state;
  ck_epoch : nat;
  ck_best_acc : Q;
  ck_batch_size : nat
}.

(** What a file holds: a checkpoint, or anything else. *)
Inductive content : Type :=
  | Pickle (c : checkpoint)
  | Other.

(** What the script does to the outside, in order: scalars and figures sent
    to the summary writer, and checkpoints saved. *)
Inductive event : Type :=
  | AddScalar (tag : string) (v : pyfloat) (step : nat)
  | AddFigure (tag : string) (cm : list (list nat)) (step : nat)
  | Saved (path : string) (c : checkpoint).

Record state : Type := {
  fs : gmap string (FS.node content);
  trace : list event;
  model : model_state;
  optimizer : optim_state;
  scheduler : lr_scheduler;
  best_acc : Q
}.

Definition torch_load (d : gmap string (FS.node content)) (p : string)
  : result checkpoint :=
  match FS.stat d p with
  | Some (FS.File (Pickle c)) => Ok c
  | Some (FS.File Other) => Raise UnpicklingError
  | Some FS.Dir => Raise IsADirectoryError
  | None => Raise FileNotFoundError
  end.

Definition torch_save (d : gmap string (FS.node content)) (p : string)
  (c : checkpoint) : result (gmap string (FS.node content)) :=
  FS.write_file d p (Pickle c).

(** [model.load_state_dict]: strict, so the shapes must agree. *)
Definition load_state_dict (m sd : model_state) : result model_state :=
  if num_classes sd =? num_classes m
  then Ok {| num_classes := num_classes m; weights := weights sd |}
  else Raise RuntimeError.

(** Lines 98-106. *)
Definition resumes (a : args) (d : gmap string (FS.node content)) : option string :=
  match checkpoint_path a with
  | Some p =>
      if negb (bool_decide (p = EmptyString)) && FS.isfile d p then Some p else None
  | None => None
  end.

Definition resume (a : args) (d : gmap string (FS.node content))
  (m : model_state) (o : optim_state)
  : result (model_state * optim_state * nat * Q) :=
  match resumes a d with
  | Some p =>
      do ck <- torch_load d p;
      do m' <- load_state_dict m (ck_model ck);
      Ok (m', ck_optimizer ck, ck_epoch ck + 1, ck_best_acc ck)
  | None => Ok (m, o, 0, 0%Q)
  end.

(** Lines 108-110. *)
Definition reset_tensorboard (d : gmap string (FS.node content)) (tb : string)
  : result (gmap string (FS.node content)) :=
  FS.mkdir (if FS.isdir d tb then FS.rmtree d tb else d) tb.

(** Lines 111-112. *)
Definition ensure_trained (d : gmap string (FS.node content)) (tp : string)
  : result (gmap string (FS.node content)) :=
  if negb (FS.isdir d tp) then FS.mkdir d tp else Ok d.

(** Line 113, [SummaryWriter(tb)]: the writer opens its event file in the
    directory, under a name [log] of its own choice.  What it is sent later
    is kept in the trace of the run. *)
Definition SummaryWriter (d : gmap string (FS.node content)) (tb log : string)
  : result (gmap string (FS.node content)) :=
  FS.write_file d (FS.join tb log) Other.

(** Lines 93-113: everything before the epoch loop.  [categories] is
    [len(train_set.categories)]; [w0] and [m0] are the fresh parameters and
    moments; [log] is the name of the writer's event file; [d] is the
    disk. *)
Definition setup (a : args) (categories : nat) (w0 : W) (m0 : M)
  (log : string) (d : gmap string (FS.node content)) : result (state * nat) :=
  let model0 := {| num_classes := categories; weights := w0 |} in
  let adam := {| group_lr := lr a; initial_lr := None; moments := m0 |} in
  let '(sched, adam) := MultiStepLR adam [30; 60; 90]%Z (1 # 10) in
  do (m, o, start_epoch, best) <- resume a d model0 adam;
  do d <- reset_tensorboard d (tensorboard_path a);
  do d <- ensure_trained d (trained_path a);
  do d <- SummaryWriter d (tensorboard_path a) log;
  Ok ({| fs := d; trace := []; model := m; optimizer := o;
         scheduler := sched; best_acc := best |}, start_epoch).

(** [plot_confusion_matrix]: the figure goes to the writer; [cm.max()] of a
    matrix with no entry raises. *)
Definition plot_confusion_matrix (tr : list event) (cm : list (list nat))
  (class_names : list nat) (epoch : nat) : result (list event) :=
  match cm with
  | [] => Raise ValueError
  | _ => Ok (tr ++ [AddFigure "confusion_matrix" cm epoch])
  end.

(** [acc > best_acc], with the number to record when it holds. *)
Definition improves (acc : pyfloat) (best : Q) : option Q :=
  match acc with
  | Num x => if py_gt acc best then Some x else None
  | NaN => None
  end.

Definition last_pt (a : args) : string := FS.join (trained_path a) "last.pt".
Definition best_pt (a : args) : string := FS.join (trained_path a) "best.pt".

(** The body of the epoch loop (lines 117-175). *)
Definition run_epoch (a : args) (epoch : nat) (st : state) : result state :=
  (* TRAIN *)
  let '(w, m) :=
    train_pass epoch (group_lr (optimizer st))
      (weights (model st), moments (optimizer st)) in
  let model' := {| num_classes := num_classes (model st); weights := w |} in
  let optimizer' := {| group_lr := group_lr (optimizer st);
                       initial_lr := initial_lr (optimizer st); moments := m |} in
  (* VALIDATE *)
  let '(all_gts, all_predictions) := Metrics.validation_loop (val_outputs w) in
  do acc <- Metrics.accuracy_score all_gts all_predictions;
  let tr := trace st ++ [AddScalar "Val/Accuracy" acc epoch] in
  do conf_matrix <- Metrics.confusion_matrix all_gts all_predictions;
  do tr <- plot_confusion_matrix tr conf_matrix (seq 0 (num_classes model')) epoch;
  let checkpoint := {| ck_model := model'; ck_optimizer := optimizer';
                       ck_epoch := epoch; ck_best_acc := best_acc st;
                       ck_batch_size := batch_size a |} in
  do d <- torch_save (fs st) (last_pt a) checkpoint;
  let tr := tr ++ [Saved (last_pt a) checkpoint] in
  do (d, tr, best) <-
    match improves acc (best_acc st) with
    | Some x =>
        do d <- torch_save d (best_pt a) checkpoint;
        Ok (d, tr ++ [Saved (best_pt a) checkpoint], x)
    | None => Ok (d, tr, best_acc st)
    end;
  let '(sched, optimizer') := scheduler_step (scheduler st) optimizer' in
  Ok {| fs := d; trace := tr; model := model'; optimizer := optimizer';
        scheduler := sched; best_acc := best |}.

(** [for epoch in range(start_epoch, args.epochs)], on the list of epochs. *)
Fixpoint run_epochs (a : args) (es : list nat) (st : state) : result state :=
  match es with
  | [] => Ok st
  | e :: rest => do st' <- run_epoch a e st; run_epochs a rest st'
  end.

Definition epoch_range (start_epoch stop : nat) : list nat :=
  seq start_epoch (stop - start_epoch).

(** [train(args)].  The forward passes of the network are taken to return
    (see [Net] for when they do): their results are [val_outputs]. *)
Definition train (a : args) (categories : nat) (w0 : W) (m0 : M)
  (log : string) (d : gmap string (FS.node content)) : result state :=
  do (st, start_epoch) <- setup a categories w0 m0 log d;
  run_epochs a (epoch_range start_epoch (epochs a)) st.

(** *** The quantities the properties of a run are stated with *)

(** What the epoch that starts in [st] trains, and what it then measures. *)
Definition trained (epoch : nat) (st : state) : W * M :=
  train_pass epoch (group_lr (optimizer st))
    (weights (model st), moments (optimizer st)).

Definition epoch_batches (epoch : nat) (st : state) : list Metrics.batch :=
  val_outputs (trained epoch st).1.

Definition epoch_accuracy (epoch : nat) (st : state) : Q :=
  Metrics.fraction (Metrics.correct (epoch_batches epoch st))
                   (Metrics.total (epoch_batches epoch st)).

(** The trained-model directory is there, and neither checkpoint name is
    taken by a directory. *)
Definition ready (a : args) (st : state) : Prop :=
  FS.isdir (fs st) (trained_path a) = true
  ∧ FS.isdir (fs st) (last_pt a) = false
  ∧ FS.isdir (fs st) (best_pt a) = false.

(** The validation loader has at least one sample. *)
Definition validation_nonempty : Prop :=
  ∀ w, 0 < Metrics.total (val_outputs w).

(** The accuracies that a trace reports. *)
Definition accuracies (tr : list event) : list Q :=
  omap (λ ev, match ev with
              | AddScalar _ (Num q) _ => Some q
              | _ => None
              end) tr.

(** The checkpoint that the epoch starting in [st] builds, and the state
    the epoch ends in when no step of it raises: [better] tells whether the
    accuracy beat the best one, [cm] is the confusion matrix. *)
Definition epoch_checkpoint (a : args) (e : nat) (st : state) : checkpoint :=
  {| ck_model := {| num_classes := num_classes (model st);
                    weights := (trained e st).1 |};
     ck_optimizer := {| group_lr := group_lr (optimizer st);
                        initial_lr := initial_lr (optimizer st);
                        moments := (trained e st).2 |};
     ck_epoch := e; ck_best_acc := best_acc st; ck_batch_size := batch_size a |}.

Definition epoch_post (a : args) (e : nat) (st : state) (better : bool) (cm : list (list nat)) : state :=
  let ck := epoch_checkpoint a e st in
  let acc := epoch_accuracy e st in
  let so := scheduler_step (scheduler st) (ck_optimizer ck) in
  {| fs := (if better then <[best_pt a := FS.File (Pickle ck)]> else id)
             (<[last_pt a := FS.File (Pickle ck)]> (fs st));
     trace := trace st
              ++ [AddScalar "Val/Accuracy" (Num acc) e;
                  AddFigure "confusion_matrix" cm e;
                  Saved (last_pt a) ck]
              ++ (if better then [Saved (best_pt a) ck] else []);
     model := ck_model ck;
     optimizer := so.2;
     scheduler := so.1;
     best_acc := if better then acc else best_acc st |}.

(** The optimizer and the scheduler as lines 95-96 leave them. *)
Definition adam0 (a : args) (m0 : M) : optim_state :=
  {| group_lr := lr a; initial_lr := Some (lr a); moments := m0 |}.

Definition sched0 (a : args) : lr_scheduler :=
  {| milestones := [30; 60; 90]%Z; gamma := 1 # 10; base_lr := lr a;
     last_epoch := 0 |}.

(** The learning rate a run starts with: the configured one, or the one of
    the optimizer state it resumes from. *)
Definition starting_lr (a : args) (d : gmap string (FS.node content)) : Q :=
  match resumes a d with
  | Some p =>
      match torch_load d p with
      | Ok ck => group_lr (ck_optimizer ck)
      | Raise _ => lr a
      end
  | None => lr a
  end.

(** [m] is the greatest element of [l]. *)
Definition greatest (m : Q) (l : list Q) : Prop :=
  m ∈ l ∧ ∀ x, x ∈ l → (x <= m)%Q.

(** How many of the milestones 30, 60, 90 the counter [k] has reached, and
    the rate a run that starts at [lr0] has after [k] steps of the
    schedule. *)
Definition crossed (k : nat) : nat :=
  length (filter (λ m, m ≤ k) [30; 60; 90]).

Definition decayed (lr0 : Q) (k : nat) : Q :=
  (lr0 * (1 # 10) ^ Z.of_nat (crossed k))%Q.

(** The scheduler is the one of line 96 after [k] steps. *)
Definition on_schedule (s : lr_scheduler) (k : nat) : Prop :=
  milestones s = [30; 60; 90]%Z ∧ gamma s = 1 # 10 ∧ last_epoch s = Z.of_nat k.

End Run.

Arguments trained {W M} train_pass epoch st.
Arguments epoch_batches {W M} train_pass val_outputs epoch st.
Arguments epoch_accuracy {W M} train_pass val_outputs epoch st.
Arguments ready {W M} a st.
Arguments adam0 {M} a m0.
Arguments starting_lr {W M} a d.
Arguments epoch_checkpoint {W M} train_pass a e st.
Arguments epoch_post {W M} train_pass val_outputs a e st better cm.
Arguments validation_nonempty {W} val_outputs.
Arguments accuracies {W M} tr.
Arguments num_classes {W} _.
Arguments weights {W} _.
Arguments group_lr {M} _.
Arguments initial_lr {M} _.
Arguments moments {M} _.
Arguments get_lr {M} s o.
Arguments scheduler_step {M} s o.
Arguments MultiStepLR {M} o ms g.
Arguments ck_model {W M} _.
Arguments ck_optimizer {W M} _.
Arguments ck_epoch {W M} _.
Arguments ck_best_acc {W M} _.
Arguments ck_batch_size {W M} _.
Arguments Pickle {W M} c.
Arguments Other {W M}.
Arguments AddScalar {W M} tag v step.
Arguments AddFigure {W M} tag cm step.
Arguments Saved {W M} path c.
Arguments fs {W M} _.
Arguments trace {W M} _.
Arguments model {W M} _.
Arguments optimizer {W M} _.
Arguments scheduler {W M} _.
Arguments best_acc {W M} _.
Arguments torch_load {W M} d p.
Arguments torch_save {W M} d p c.
Arguments load_state_dict {W} m sd.
Arguments resumes {W M} a d.
Arguments resume {W M} a d m o.
Arguments reset_tensorboard {W M} d tb.
Arguments ensure_trained {W M} d tp.
Arguments SummaryWriter {W M} d tb log.
Arguments setup {W M} a categories w0 m0 log d.
Arguments plot_confusion_matrix {W M} tr cm class_names epoch.
Arguments run_epoch {W M} train_pass val_outputs a epoch st.
Arguments run_epochs {W M} train_pass val_outputs a es st.
Arguments train {W M} train_pass val_outputs a categories w0 m0 log d.

End Train.


(** ** A small run, to evaluate the definitions on

    Parameters that count the training passes, a network that is right on
    the first of its two validation samples from the second pass on, and a
    disk with an old log. *)

Module Sample.
Import Train.

Definition train_pass (e : nat) (l : Q) (wm : nat * unit) : nat * unit :=
  (S wm.1, wm.2).

Definition val_outputs (w : nat) : list Metrics.batch :=
  [ [ (if 2 <=? w then (1%Q, [0%Q]) else (0%Q, [1%Q]), 0) ];
    [ ((0%Q, [1%Q]), 1) ] ].

Definition fresh_args : args := {|
  data_path := "data/animals";
  batch_size := 1;
  epochs := 32;
  lr := 1 # 100;
  image_size := 204;
  checkpoint_path := None;
  tensorboard_path := "tb";
  trained_path := "out"
|}.

Definition resume_args : args := {|
  data_path := "data/animals";
  batch_size := 1;
  epochs := 40;
  lr := 1 # 100;
  image_size := 204;
  checkpoint_path := Some "out/last.pt";
  tensorboard_path := "tb";
  trained_path := "out"
|}.

Definition log : string := "events.out.tfevents.0".

Definition disk0 : gmap string (FS.node (content nat unit)) :=
  <["tb" := FS.Dir]> (<["tb/old" := FS.File Other]> ∅).

(** The disk that a fresh run of 32 epochs leaves. *)
Definition disk1 : gmap string (FS.node (content nat unit)) :=
  match train train_pass val_outputs fresh_args 2 0 tt log disk0 with
  | Ok st => fs st
  | Raise _ => ∅
  end.

(** The rate and the epoch with which the run resumed from it starts. *)
Definition resumed_start : option (Q * nat) :=
  match setup resume_args 2 0 tt log disk1 with
  | Ok (st, start) => Some (group_lr (optimizer st), start)
  | Raise _ => None
  end.

(** A state at the entry of the loop. *)
Definition entry : state nat unit := {|
  fs := <["out" := FS.Dir]> ∅;
  trace := [];
  model := {| num_classes := 2; weights := 0 |};
  optimizer := adam0 fresh_args tt;
  scheduler := sched0 fresh_args;
  best_acc := 0
|}.

Definition saved : checkpoint nat unit := {|
  ck_model := {| num_classes := 2; weights := 7 |};
  ck_optimizer := {| group_lr := 1 # 1000; initial_lr := Some (1 # 100);
                     moments := tt |};
  ck_epoch := 31;
  ck_best_acc := 1;
  ck_batch_size := 1
|}.

(** A disk that holds that checkpoint only. *)
Definition saved_disk : gmap string (FS.node (content nat unit)) :=
  <["out/last.pt" := FS.File (Pickle saved)]> ∅.

(** The state in which the fresh run enters the loop. *)
Definition fresh_start : state nat unit :=
  match setup fresh_args 2 0 tt log disk0 with
  | Ok (st, _) => st
  | Raise _ => entry
  end.

(** A loader with no validation sample, an argument list for the disk
    that the fresh run leaves, and a disk with a file where the tensorboard
    directory should be. *)
Definition no_validation (w : nat) : list Metrics.batch := [].

Definition done_args : args := {|
  data_path := "data/animals";
  batch_size := 1;
  epochs := 32;
  lr := 1 # 100;
  image_size := 204;
  checkpoint_path := Some "out/last.pt";
  tensorboard_path := "tb";
  trained_path := "out"
|}.

Definition file_disk : gmap string (FS.node (content nat unit)) :=
  <["tb" := FS.File Other]> ∅.

End Sample.

(** ** Reading a trace, and disks on which a run starts cleanly *)

Module Observe.
Import Train.

Section Trace.
Context {W M : Type}.

(** The steps at which a trace sends a scalar under [tag], the steps of its
    figures, and the epochs of the checkpoints it saves under [p]. *)
Definition scalar_steps (tag : string) (tr : list (event W M)) : list nat :=
  omap (λ ev, match ev with
              | AddScalar t _ s => if bool_decide (t = tag) then Some s else None
              | _ => None
              end) tr.

Definition figure_steps (tr : list (event W M)) : list nat :=
  omap (λ ev, match ev with
              | AddFigure _ _ s => Some s
              | _ => None
              end) tr.

Definition saved_epochs (p : string) (tr : list (event W M)) : list nat :=
  omap (λ ev, match ev with
              | Saved q c => if bool_decide (q = p) then Some (ck_epoch c) else None
              | _ => None
              end) tr.

(** A name in the starting directory: not empty, no separator. *)
Definition plain (p : string) : Prop :=
  p ≠ EmptyString ∧ FS.has_sep p = false.

(** A disk on which the directories of [a] can be set up: the tensorboard
    and trained-model paths are distinct plain names that are not files, and
    no directory sits where the event file or a checkpoint is to go. *)
Definition clean_disk (a : args) (log : string)
  (d : gmap string (FS.node (content W M))) : Prop :=
  plain (tensorboard_path a) ∧ plain (trained_path a) ∧ plain log
  ∧ tensorboard_path a ≠ trained_path a
  ∧ FS.isfile d (tensorboard_path a) = false
  ∧ FS.isfile d (trained_path a) = false
  ∧ FS.isdir d (FS.join (tensorboard_path a) log) = false
  ∧ FS.isdir d (last_pt a) = false
  ∧ FS.isdir d (best_pt a) = false.

End Trace.

End Observe.

(** ** The side of the final feature map *)

Definition feature_side (n : nat) : nat :=
  Net.block_side (Net.block_side (Net.block_side (Net.block_side n))).

(** ** The annotations of the confusion-matrix figure
       ([plot_confusion_matrix], lines 38-47) *)

Module Plot.

Inductive color : Type := white | black.

Section Annotations.

(** [np.around(x, decimals=2)] on a number. *)
Variable around : Q → Q.

(** [cm.astype('float') / cm.sum(axis=1)[:, np.newaxis]], then [np.around]:
    a row that sums to zero holds zeros only, and 0/0 is not a number. *)
Definition normalize_row (row : list nat) : list pyfloat :=
  let s := sum_list row in
  map (λ c, if s =? 0 then NaN else Num (around (Metrics.fraction c s))) row.

Definition normalize (cm : list (list nat)) : list (list pyfloat) :=
  map normalize_row cm.

(** [cm.max()]: not a number as soon as one entry is not; no entry at all
    raises. *)
Definition max2 (a b : pyfloat) : pyfloat :=
  match a, b with
  | Num x, Num y => Num (if Qle_bool x y then y else x)
  | _, _ => NaN
  end.

Definition matrix_max (m : list (list pyfloat)) : result pyfloat :=
  match concat m with
  | [] => Raise ValueError
  | x :: r => Ok (foldl max2 x r)
  end.

Definition halve (x : pyfloat) : pyfloat :=
  match x with
  | Num q => Num (q / 2)
  | NaN => NaN
  end.

(** [cm[i, j] > threshold] on floats. *)
Definition above (v threshold : pyfloat) : bool :=
  match v, threshold with
  | Num x, Num y => negb (Qle_bool x y)
  | _, _ => false
  end.

(** Lines 38-47: the text put at column [j], row [i], with its colour.  The
    matrix is rectangular, as an array is. *)
Definition annotations (cm : list (list nat))
  : result (list (nat * nat * pyfloat * color)) :=
  let cm := normalize cm in
  do m <- matrix_max cm;
  let threshold := halve m in
  Ok (concat (imap (λ i row,
                imap (λ j v, (j, i, v,
                              if above v threshold then white else black)) row)
              cm)).

End Annotations.

End Plot.

(** ** The data loaders (lines 77-91) and the steps of the training loss
       (lines 114, 121, 136) *)

Module Loader.

Section Batches.
Context {A : Type}.

(** Consecutive batches of [bs] items; the last one may be shorter. *)
Fixpoint batched (fuel bs : nat) (l : list A) : list (list A) :=
  match fuel with
  | 0 => []
  | S fuel =>
      match l with
      | [] => []
      | _ => take bs l :: batched fuel bs (drop bs l)
      end
  end.

(** [DataLoader(dataset, batch_size, drop_last)] on the items in the order
    in which they are drawn: a batch size of zero is refused; with
    [drop_last] a shorter last batch is dropped. *)
Definition DataLoader (l : list A) (batch_size : nat) (drop_last : bool)
  : result (list (list A)) :=
  if batch_size =? 0 then Raise ValueError
  else
    let bs := batched (length l) batch_size l in
    Ok (if drop_last then filter (λ b, length b = batch_size) bs else bs).

End Batches.

(** The global steps under which one epoch sends its running training
    loss: [epoch * num_iters + iter] for [iter] over the batches. *)
Definition loss_steps (num_iters epoch : nat) : list nat :=
  map (λ iter, epoch * num_iters + iter) (seq 0 num_iters).

End Loader.

(** * Facts about the validation metrics *)

Section MetricsFacts.
Import Metrics.

Lemma validation_loop_from (batches : list batch) (acc : list nat * list nat) :
  fold_left validation_step batches acc
  = (acc.1 ++ map snd (concat batches), acc.2 ++ map predicted (concat batches)).
Proof.
  revert acc. induction batches as [|b bs IH]; intros [g p]; simpl.
  - by rewrite !app_nil_r.
  - rewrite IH. simpl. by rewrite !map_app, !app_assoc.
Qed.

Lemma validation_loop_eq (batches : list batch) :
  validation_loop batches
  = (map snd (concat batches), map predicted (concat batches)).
Proof. unfold validation_loop. by rewrite validation_loop_from. Qed.

Lemma total_length (batches : list batch) : total batches = length (concat batches).
Proof.
  unfold total. induction batches as [|b bs IH]; simpl; [done|].
  rewrite length_app. lia.
Qed.

Lemma score_samples (l : list (logits * nat)) :
  score (map snd l) (map predicted l) = map (λ s, snd s =? predicted s) l.
Proof. unfold score. induction l as [|s l IH]; simpl; [done|]. by rewrite IH. Qed.

Lemma count_true_samples (l : list (logits * nat)) :
  count_true (map (λ s, snd s =? predicted s) l)
  = length (filter (λ s, predicted s = snd s) l).
Proof.
  unfold count_true. induction l as [|s l IH]; simpl; [done|].
  rewrite !filter_cons. destruct (Nat.eqb_spec (snd s) (predicted s)) as [E|E].
  - rewrite decide_True by done. rewrite decide_True by done. simpl. by rewrite IH.
  - rewrite decide_False by done. rewrite decide_False by congruence. done.
Qed.

Lemma mean_nonempty (l : list bool) :
  l ≠ [] → mean l = Num (fraction (count_true l) (length l)).
Proof. by destruct l. Qed.

Lemma fraction_full (n : nat) : 0 < n → (fraction n n == 1)%Q.
Proof.
  intros Hn. unfold fraction. apply Qmult_inv_r.
  unfold inject_Z, Qeq. simpl. lia.
Qed.

Lemma fraction_none (n : nat) : (fraction 0 n == 0)%Q.
Proof. unfold fraction. simpl. unfold Qdiv. by rewrite Qmult_0_l. Qed.

End MetricsFacts.

(** * Facts about the file system *)

Section FSFacts.
Context {C : Type}.
Implicit Types (d : gmap string (FS.node C)) (p q : string).

Lemma has_sep_app (a b : string) :
  FS.has_sep (a +:+ b) = FS.has_sep a || FS.has_sep b.
Proof.
  induction a as [|c a IH]; [done|].
  change (String c a +:+ b) with (String c (a +:+ b)).
  simpl. rewrite IH. by rewrite orb_assoc.
Qed.

Lemma dirname_app_sep (a b : string) :
  FS.has_sep b = false → FS.dirname (a +:+ "/" +:+ b) = a.
Proof.
  intros Hb. change ("/" +:+ b) with (String FS.sep b).
  induction a as [|c a IH].
  - change (EmptyString +:+ String FS.sep b) with (String FS.sep b).
    simpl. by rewrite Hb.
  - change (String c a +:+ String FS.sep b) with (String c (a +:+ String FS.sep b)).
    simpl. rewrite has_sep_app, IH. simpl. by rewrite orb_true_r.
Qed.

Lemma dirname_join (a b : string) :
  a ≠ EmptyString → FS.has_sep b = false → FS.dirname (FS.join a b) = a.
Proof.
  intros Ha Hb. unfold FS.join. rewrite decide_False by done.
  by apply dirname_app_sep.
Qed.

Lemma join_nonempty (a b : string) : b ≠ EmptyString → FS.join a b ≠ EmptyString.
Proof.
  intros Hb. unfold FS.join. case_decide; [done|]. by destruct a.
Qed.

Lemma isdir_nonempty d p : FS.isdir d p = true → p ≠ EmptyString.
Proof. unfold FS.isdir, FS.stat. case_decide; [done|]. done. Qed.

Lemma isdir_lookup d p :
  FS.isdir d p = true ↔ p ≠ EmptyString ∧ d !! p = Some FS.Dir.
Proof.
  unfold FS.isdir, FS.stat. case_decide as Hp.
  - split; [done|]. by intros [? _].
  - destruct (d !! p) as [[|c]|]; split; try done; by intros [_ ?].
Qed.

Lemma isfile_lookup d p :
  FS.isfile d p = true ↔ p ≠ EmptyString ∧ ∃ c, d !! p = Some (FS.File c).
Proof.
  unfold FS.isfile, FS.stat. case_decide as Hp.
  - split; [done|]. by intros [? _].
  - destruct (d !! p) as [[|c]|]; naive_solver.
Qed.

Lemma isdir_insert_file d p q (c : C) :
  FS.isdir (<[p := FS.File c]> d) q = if decide (q = p) then false else FS.isdir d q.
Proof.
  unfold FS.isdir, FS.stat. case_decide as Hq.
  - by case_decide.
  - case_decide as Hqp.
    + subst. by rewrite lookup_insert_eq.
    + by rewrite lookup_insert_ne.
Qed.

Lemma write_file_ok d p (c : C) :
  p ≠ EmptyString → FS.isdir d p = false → FS.parent_ok d p = true →
  FS.write_file d p c = Ok (<[p := FS.File c]> d).
Proof.
  intros Hp Hd Hpar. unfold FS.write_file.
  rewrite decide_False by done. by rewrite Hd, Hpar.
Qed.

Lemma parent_ok_join d a b :
  FS.isdir d a = true → FS.has_sep b = false → FS.parent_ok d (FS.join a b) = true.
Proof.
  intros Ha Hb. unfold FS.parent_ok.
  rewrite dirname_join by eauto using isdir_nonempty.
  rewrite decide_False by eauto using isdir_nonempty. done.
Qed.

End FSFacts.

(** * Facts about the epoch loop *)

Section RunFacts.
Import Train.
Context {W M : Type}.
Variable train_pass : nat → Q → W * M → W * M.
Variable val_outputs : W → list Metrics.batch.
Implicit Types (a : args) (st : state W M) (e : nat).

Lemma py_gt_lt (x b : Q) : py_gt (Num x) b = true ↔ (b < x)%Q.
Proof.
  unfold py_gt. rewrite negb_true_iff, <- not_true_iff_false, Qle_bool_iff.
  split; [apply Qnot_le_lt | apply Qlt_not_le].
Qed.

Lemma py_gt_le (x b : Q) : py_gt (Num x) b = false ↔ (x <= b)%Q.
Proof. unfold py_gt. by rewrite negb_false_iff, Qle_bool_iff. Qed.

Lemma insert_label_nonempty (x : nat) (l : list nat) : Metrics.insert_label x l ≠ [].
Proof. destruct l as [|y r]; simpl; [done|]. repeat case_match; done. Qed.

Lemma unique_labels_nonempty (y_true y_pred : list nat) :
  y_true ≠ [] → Metrics.unique_labels y_true y_pred ≠ [].
Proof.
  destruct y_true as [|x l]; [done|]. intros _.
  unfold Metrics.unique_labels. simpl. apply insert_label_nonempty.
Qed.

Lemma confusion_matrix_samples (l : list (Metrics.logits * nat)) :
  l ≠ [] →
  ∃ cm, Metrics.confusion_matrix (map snd l) (map Metrics.predicted l) = Ok cm
        ∧ cm ≠ [].
Proof.
  intros Hl. unfold Metrics.confusion_matrix.
  rewrite !length_map, Nat.eqb_refl. eexists; split; [done|].
  intros Hmap. apply map_eq_nil in Hmap.
  revert Hmap. apply unique_labels_nonempty. by destruct l.
Qed.

Lemma accuracy_score_samples (l : list (Metrics.logits * nat)) :
  l ≠ [] →
  Metrics.accuracy_score (map snd l) (map Metrics.predicted l)
  = Ok (Num (Metrics.fraction
               (length (filter (λ s, Metrics.predicted s = snd s) l)) (length l))).
Proof.
  intros Hl. unfold Metrics.accuracy_score.
  rewrite !length_map, Nat.eqb_refl, score_samples, mean_nonempty.
  - by rewrite count_true_samples, length_map.
  - by destruct l.
Qed.

Lemma has_sep_last : FS.has_sep "last.pt" = false.
Proof. reflexivity. Qed.
Lemma has_sep_best : FS.has_sep "best.pt" = false.
Proof. reflexivity. Qed.

Lemma run_epoch_ok a e st :
  ready a st → 0 < Metrics.total (epoch_batches train_pass val_outputs e st) →
  ∃ cm, run_epoch train_pass val_outputs a e st
        = Ok (epoch_post train_pass val_outputs a e st
                (py_gt (Num (epoch_accuracy train_pass val_outputs e st)) (best_acc st)) cm).
Proof.
  intros (Htp & Hlast & Hbest) Hne.
  unfold run_epoch, epoch_post, epoch_checkpoint, epoch_accuracy, epoch_batches, trained in *.
  destruct (train_pass e _ _) as [w m] eqn:Htrain. simpl in *.
  rewrite validation_loop_eq.
  rewrite total_length in Hne.
  assert (Hl : concat (val_outputs w) ≠ []) by (intros E; rewrite E in Hne; simpl in Hne; lia).
  rewrite accuracy_score_samples by done. simpl.
  destruct (confusion_matrix_samples _ Hl) as (cm & -> & Hcm). simpl.
  exists cm. unfold plot_confusion_matrix. destruct cm as [|r cm]; [done|]. simpl.
  unfold torch_save.
  rewrite write_file_ok; [| by apply join_nonempty | done | by apply parent_ok_join]. simpl.
  unfold improves. fold (Metrics.correct (val_outputs w)).
  rewrite <- total_length.
  unfold py_gt.
  destruct (negb (Qle_bool _ _)) eqn:Hgt; simpl.
  - rewrite write_file_ok; [simpl | by apply join_nonempty | | ].
    + rewrite <- !app_assoc. done.
    + rewrite isdir_insert_file. case_decide; done.
    + apply parent_ok_join; [|done].
      rewrite isdir_insert_file. case_decide as E; [|done]. congruence.
  - rewrite <- !app_assoc. done.
Qed.

Lemma epoch_post_ready a e st better cm :
  ready a st → ready a (epoch_post train_pass val_outputs a e st better cm).
Proof.
  intros (Htp & Hlast & Hbest). unfold ready, epoch_post. simpl.
  destruct better; simpl; rewrite ?isdir_insert_file;
    repeat case_decide; repeat split; congruence.
Qed.

Lemma run_epochs_app a es1 es2 st :
  run_epochs train_pass val_outputs a (es1 ++ es2) st
  = bind (run_epochs train_pass val_outputs a es1 st)
         (run_epochs train_pass val_outputs a es2).
Proof.
  revert st. induction es1 as [|e es1 IH]; intros st; simpl; [done|].
  destruct (run_epoch _ _ _ _ _) as [st'|err]; simpl; [apply IH | done].
Qed.

Lemma run_epochs_snoc a es e st :
  run_epochs train_pass val_outputs a (es ++ [e]) st
  = bind (run_epochs train_pass val_outputs a es st)
         (run_epoch train_pass val_outputs a e).
Proof.
  rewrite run_epochs_app. destruct (run_epochs _ _ _ _ _) as [st'|err]; simpl; [|done].
  by destruct (run_epoch _ _ _ _ _).
Qed.

Lemma run_epochs_total a es st0 :
  validation_nonempty val_outputs → ready a st0 →
  ∃ st, run_epochs train_pass val_outputs a es st0 = Ok st ∧ ready a st.
Proof.
  intros Hval. revert st0. induction es as [|e es IH]; intros st0 Hr; simpl.
  - eauto.
  - destruct (run_epoch_ok a e st0 Hr (Hval _)) as (cm & ->). simpl.
    apply IH. by apply epoch_post_ready.
Qed.

Lemma greatest_singleton (b : Q) : greatest b [b].
Proof.
  split; [set_solver|]. intros x Hx. apply list_elem_of_singleton in Hx as ->.
  apply Qle_refl.
Qed.

Lemma greatest_snoc (m b x : Q) (l : list Q) (better : bool) :
  greatest m (b :: l) →
  better = py_gt (Num x) m →
  greatest (if better then x else m) (b :: l ++ [x]).
Proof.
  intros [Hin Hmax] Hb. rewrite app_comm_cons. split.
  - destruct better.
    + apply elem_of_app. right. apply list_elem_of_singleton. done.
    + apply elem_of_app. by left.
  - intros y Hy. apply elem_of_app in Hy as [Hy|Hy].
    + apply Hmax in Hy. destruct better; [|done].
      symmetry in Hb. apply py_gt_lt in Hb.
      eapply Qle_trans; [done|]. by apply Qlt_le_weak.
    + apply list_elem_of_singleton in Hy as ->. destruct better.
      * apply Qle_refl.
      * symmetry in Hb. by apply py_gt_le in Hb.
Qed.

Lemma accuracies_app (t1 t2 : list (event W M)) :
  accuracies (t1 ++ t2) = accuracies t1 ++ accuracies t2.
Proof. unfold accuracies. apply omap_app. Qed.

Lemma run_epochs_best a es st0 st :
  validation_nonempty val_outputs → ready a st0 →
  run_epochs train_pass val_outputs a es st0 = Ok st →
  ∃ evs, trace st = trace st0 ++ evs
         ∧ greatest (best_acc st) (best_acc st0 :: accuracies evs).
Proof.
  intros Hval Hr. revert st. induction es as [|e es IH] using rev_ind; intros st Hrun.
  - simpl in Hrun. injection Hrun as <-. exists []. split; [by rewrite app_nil_r|].
    apply greatest_singleton.
  - rewrite run_epochs_snoc in Hrun.
    destruct (run_epochs_total a es st0 Hval Hr) as (st1 & Hes & Hr1).
    rewrite Hes in Hrun. simpl in Hrun.
    destruct (run_epoch_ok a e st1 Hr1 (Hval _)) as (cm & Hep).
    remember (py_gt _ _) as better eqn:Hb in Hep.
    rewrite Hep in Hrun. injection Hrun as <-.
    destruct (IH st1 Hes) as (evs & Htr & Hgr).
    eexists. split.
    + simpl. rewrite Htr, <- app_assoc. done.
    + simpl. rewrite accuracies_app.
      replace (accuracies (_ :: _)) with [epoch_accuracy train_pass val_outputs e st1]
        by (destruct better; reflexivity).
      by apply greatest_snoc.
Qed.

End RunFacts.

(** * Facts about the shapes in the network *)

Ltac dlia := zify; Z.to_euclidean_division_equations; lia.

Section NetFacts.
Import Net.

Lemma conv_ok tr ci co b h w :
  3 ≤ h → 3 ≤ w →
  apply_layer tr (Conv2d ci co 3 0) [b; ci; h; w] = Ok [b; co; h - 2; w - 2].
Proof.
  intros Hh Hw. cbn [apply_layer]. rewrite Nat.eqb_refl. cbn [negb].
  replace (h + 2 * 0 <? 3) with false by (symmetry; apply Nat.ltb_ge; lia).
  replace (w + 2 * 0 <? 3) with false by (symmetry; apply Nat.ltb_ge; lia).
  cbn [orb]. unfold conv_out.
  replace (h + 2 * 0 - 3 + 1) with (h - 2) by lia.
  by replace (w + 2 * 0 - 3 + 1) with (w - 2) by lia.
Qed.

Lemma bn_ok tr c b h w :
  2 ≤ h → 2 ≤ w → apply_layer tr (BatchNorm2d c) [b; c; h; w] = Ok [b; c; h; w].
Proof.
  intros Hh Hw. cbn [apply_layer]. rewrite Nat.eqb_refl. cbn [negb].
  replace (b * (h * w) =? 1) with false; [by rewrite andb_false_r|].
  symmetry. apply Nat.eqb_neq.
  assert (4 ≤ h * w) by nia. destruct b; [lia|nia].
Qed.

Lemma pool_ok tr b c h w :
  2 ≤ h → 2 ≤ w → apply_layer tr (MaxPool2d 2) [b; c; h; w] = Ok [b; c; h / 2; w / 2].
Proof.
  intros Hh Hw. cbn [apply_layer].
  replace (h / 2 =? 0) with false.
  2:{ symmetry. apply Nat.eqb_neq. intros E. apply Nat.div_small_iff in E; lia. }
  replace (w / 2 =? 0) with false.
  2:{ symmetry. apply Nat.eqb_neq. intros E. apply Nat.div_small_iff in E; lia. }
  done.
Qed.

Lemma relu_ok tr x : apply_layer tr LeakyReLU x = Ok x.
Proof. reflexivity. Qed.

Lemma block_ok tr ci co b h w :
  6 ≤ h → 6 ≤ w →
  sequential tr (make_block ci co) [b; ci; h; w]
  = Ok [b; co; block_side h; block_side w].
Proof.
  intros Hh Hw. unfold make_block. cbn [sequential].
  rewrite conv_ok by lia. cbn [bind].
  rewrite bn_ok by lia. cbn [bind]. rewrite relu_ok. cbn [bind].
  rewrite conv_ok by lia. cbn [bind].
  rewrite bn_ok by lia. cbn [bind]. rewrite relu_ok. cbn [bind].
  rewrite pool_ok by lia. cbn [bind].
  unfold block_side.
  replace (h - 2 - 2) with (h - 4) by lia.
  by replace (w - 2 - 2) with (w - 4) by lia.
Qed.

Lemma conv_inv tr ci co x y :
  apply_layer tr (Conv2d ci co 3 0) x = Ok y →
  (∃ b h w, x = [b; ci; h; w] ∧ 3 ≤ h ∧ 3 ≤ w ∧ y = [b; co; h - 2; w - 2])
  ∨ length y = 3.
Proof.
  intros H. cbn [apply_layer] in H.
  destruct x as [|b [|c [|h [|w [|z x]]]]]; try done.
  - right. destruct (negb _); [done|]. destruct (_ || _); [done|].
    by injection H as <-.
  - left. destruct (Nat.eqb_spec c ci) as [->|]; cbn [negb] in H; [|done].
    destruct (Nat.ltb_spec (h + 2 * 0) 3); [done|].
    destruct (Nat.ltb_spec (w + 2 * 0) 3); [done|].
    cbn [orb] in H. injection H as <-. exists b, h, w.
    unfold conv_out. repeat split; try lia.
    replace (h + 2 * 0 - 3 + 1) with (h - 2) by lia.
    by replace (w + 2 * 0 - 3 + 1) with (w - 2) by lia.
Qed.

Lemma bn_inv tr c x y :
  apply_layer tr (BatchNorm2d c) x = Ok y → length x = 4 ∧ y = x.
Proof.
  intros H. cbn [apply_layer] in H.
  destruct x as [|b [|c' [|h [|w [|z x]]]]]; try done.
  destruct (negb _); [done|]. destruct (_ && _); [done|].
  by injection H as <-.
Qed.

Lemma pool_inv tr b c h w y :
  apply_layer tr (MaxPool2d 2) [b; c; h; w] = Ok y →
  2 ≤ h ∧ 2 ≤ w ∧ y = [b; c; h / 2; w / 2].
Proof.
  intros H. cbn [apply_layer] in H.
  destruct (Nat.eqb_spec (h / 2) 0) as [E|Eh]; [done|].
  destruct (Nat.eqb_spec (w / 2) 0) as [E|Ew]; [done|].
  cbn [orb] in H. injection H as <-.
  repeat split.
  - destruct (decide (2 ≤ h)); [done|]. rewrite Nat.div_small in Eh; [done|lia].
  - destruct (decide (2 ≤ w)); [done|]. rewrite Nat.div_small in Ew; [done|lia].
Qed.

Lemma bind_ok {A B : Type} (r : result A) (k : A → result B) (y : B) :
  bind r k = Ok y → ∃ x, r = Ok x ∧ k x = Ok y.
Proof. destruct r as [x|e]; simpl; [eauto|done]. Qed.

Lemma block_inv tr ci co x y :
  sequential tr (make_block ci co) x = Ok y →
  ∃ b h w, x = [b; ci; h; w] ∧ 6 ≤ h ∧ 6 ≤ w
           ∧ y = [b; co; block_side h; block_side w].
Proof.
  unfold make_block. cbn [sequential]. intros H.
  apply bind_ok in H as (x1 & H1 & H).
  apply bind_ok in H as (x2 & H2 & H).
  apply bind_ok in H as (x3 & H3 & H).
  apply bind_ok in H as (x4 & H4 & H).
  apply bind_ok in H as (x5 & H5 & H).
  apply bind_ok in H as (x6 & H6 & H).
  apply bind_ok in H as (x7 & H7 & H).
  injection H as <-. cbn [apply_layer] in H3, H6.
  injection H3 as <-. injection H6 as <-.
  apply bn_inv in H2 as [L1 ->]. apply bn_inv in H5 as [L4 ->].
  apply conv_inv in H1 as [(b & h & w & -> & Hh & Hw & ->)|L]; [|lia].
  apply conv_inv in H4 as [(b' & h' & w' & E & Hh' & Hw' & ->)|L]; [|lia].
  injection E as <- <- <-.
  apply pool_inv in H7 as (Hh2 & Hw2 & ->).
  exists b, h, w. unfold block_side.
  replace (h - 4) with (h - 2 - 2) by lia.
  replace (w - 4) with (w - 2 - 2) by lia.
  repeat split; [lia|lia].
Qed.

Lemma features_inv tr nc x y :
  features tr (CNN_init nc) x = Ok y →
  ∃ b h w, x = [b; 3; h; w] ∧ b ≠ 0
    ∧ 6 ≤ h ∧ 6 ≤ block_side h ∧ 6 ≤ block_side (block_side h)
    ∧ 6 ≤ block_side (block_side (block_side h))
    ∧ 6 ≤ w ∧ 6 ≤ block_side w ∧ 6 ≤ block_side (block_side w)
    ∧ 6 ≤ block_side (block_side (block_side w))
    ∧ y = [b; flat_size (block_side (block_side (block_side (block_side h))))
                        (block_side (block_side (block_side (block_side w))))].
Proof.
  unfold features. cbn [conv1 conv2 conv3 conv4 CNN_init]. intros H.
  apply bind_ok in H as (x1 & H1 & H).
  apply bind_ok in H as (x2 & H2 & H).
  apply bind_ok in H as (x3 & H3 & H).
  apply bind_ok in H as (x4 & H4 & H).
  apply block_inv in H1 as (b & h & w & -> & Hh1 & Hw1 & ->).
  apply block_inv in H2 as (? & ? & ? & E & Hh2 & Hw2 & ->). injection E as <- <- <-.
  apply block_inv in H3 as (? & ? & ? & E & Hh3 & Hw3 & ->). injection E as <- <- <-.
  apply block_inv in H4 as (? & ? & ? & E & Hh4 & Hw4 & ->). injection E as <- <- <-.
  cbn [view_flat] in H. destruct (Nat.eqb_spec b 0) as [|Hb]; [done|].
  injection H as <-. exists b, h, w. repeat split; done.
Qed.

Lemma features_ok tr nc b h w :
  b ≠ 0 →
  6 ≤ block_side (block_side (block_side h)) →
  6 ≤ block_side (block_side (block_side w)) →
  features tr (CNN_init nc) [b; 3; h; w]
  = Ok [b; flat_size (block_side (block_side (block_side (block_side h))))
                     (block_side (block_side (block_side (block_side w))))].
Proof.
  intros Hb Hh Hw. unfold features. cbn [conv1 conv2 conv3 conv4 CNN_init].
  unfold block_side in Hh, Hw.
  rewrite block_ok by dlia. cbn [bind].
  rewrite block_ok by (unfold block_side; dlia). cbn [bind].
  rewrite block_ok by (unfold block_side; dlia). cbn [bind].
  rewrite block_ok by (unfold block_side; dlia). cbn [bind].
  cbn [view_flat]. destruct (Nat.eqb_spec b 0); [done|]. done.
Qed.

Lemma classifier_ok tr nc b :
  classifier tr (CNN_init nc) [b; 5184] = Ok [b; nc].
Proof. reflexivity. Qed.

Lemma fc1_mismatch tr nc b n :
  n ≠ 5184 → sequential tr (fc1 (CNN_init nc)) [b; n] = Raise RuntimeError.
Proof.
  intros Hn. cbn [fc1 CNN_init sequential apply_layer bind].
  change (reverse [b; n]) with [n; b]. cbn iota.
  destruct (Nat.eqb_spec n 5184); [done|]. done.
Qed.

Lemma flat_size_9 : flat_size 9 9 = 5184.
Proof. reflexivity. Qed.

Lemma fc1_constant : 5184 = 64 * (9 * 9).
Proof. reflexivity. Qed.

Lemma flat_size_square (k : nat) : flat_size k k = 5184 ↔ k = 9.
Proof.
  unfold flat_size. rewrite fc1_constant. split; [|by intros ->].
  intros H. assert (k * k = 81) as Hk by lia.
  destruct (decide (k ≤ 8)); [assert (k * k ≤ 64) by nia; lia|].
  destruct (decide (10 ≤ k)); [assert (100 ≤ k * k) by nia; lia|]. lia.
Qed.

End NetFacts.

(** * The network: output shape and the size expected by the first dense layer *)

Section NetTheorems.
Import Net.

Lemma side4_expected (s : nat) :
  204 ≤ s ≤ 219 ↔
  76 ≤ s ∧ block_side (block_side (block_side (block_side s))) = 9.
Proof. unfold block_side. split; intros H; dlia. Qed.

Lemma side3_large (s : nat) :
  76 ≤ s ↔ 6 ≤ block_side (block_side (block_side s)).
Proof. unfold block_side. split; intros H; dlia. Qed.

Lemma forward_ok tr nc b h w :
  b ≠ 0 → 204 ≤ h ≤ 219 → 204 ≤ w ≤ 219 →
  features tr (CNN_init nc) [b; 3; h; w] = Ok [b; 5184]
  ∧ forward tr (CNN_init nc) [b; 3; h; w] = Ok [b; nc].
Proof.
  intros Hb Hh Hw.
  apply side4_expected in Hh as [Hh1 Hh2]. apply side4_expected in Hw as [Hw1 Hw2].
  assert (features tr (CNN_init nc) [b; 3; h; w] = Ok [b; 5184]) as Hf.
  { rewrite features_ok by (done || by apply side3_large).
    by rewrite Hh2, Hw2, flat_size_9. }
  split; [done|]. unfold forward. rewrite Hf. cbn [bind]. apply classifier_ok.
Qed.

Lemma classifier_inv tr nc b n y :
  classifier tr (CNN_init nc) [b; n] = Ok y → n = 5184 ∧ y = [b; nc].
Proof.
  intros H. destruct (decide (n = 5184)) as [->|Hn].
  - rewrite classifier_ok in H. by injection H as <-.
  - unfold classifier in H. by rewrite fc1_mismatch in H.
Qed.

Lemma forward_inv tr nc x y :
  forward tr (CNN_init nc) x = Ok y →
  ∃ b h w, x = [b; 3; h; w] ∧ y = [b; nc].
Proof.
  unfold forward. intros H. apply bind_ok in H as (z & Hf & Hc).
  apply features_inv in Hf as (b & h & w & -> & _ & _ & _ & _ & _ & _ & _ & _ & _ & ->).
  apply classifier_inv in Hc as [_ ->]. eauto.
Qed.

Lemma not_ok_raise {A : Type} (r : result A) :
  (∀ y, r ≠ Ok y) → ∃ e, r = Raise e.
Proof. destruct r as [y|e]; [intros H; by destruct (H y)|eauto]. Qed.

(** C6.  For every batch of at least one RGB image whose height and width
    are among those the first dense layer expects (204 to 219), in training
    and in inference mode, [forward] returns logits of shape
    [batch; num_classes]; whenever [forward] returns at all, on any input, the
    input is a 4-D batch of 3-channel images and the output has the batch
    dimension of the input and [num_classes] as class dimension; no layer of
    the network normalises to probabilities, the last one being the linear
    projection to [num_classes]. *)
Theorem forward_output_shape (tr : bool) (nc b h w : nat) :
  b ≠ 0 → 204 ≤ h ≤ 219 → 204 ≤ w ≤ 219 →
  forward tr (CNN_init nc) [b; 3; h; w] = Ok [b; nc]
  ∧ (∀ x y, forward tr (CNN_init nc) x = Ok y →
            ∃ b' h' w', x = [b'; 3; h'; w'] ∧ y = [b'; nc])
  ∧ Forall (λ l, normalizes l = false) (layers (CNN_init nc))
  ∧ last (fc3 (CNN_init nc)) = Some (Linear 512 nc).
Proof.
  intros Hb Hh Hw. split; [by apply forward_ok|].
  split; [intros x y; apply forward_inv|].
  split; [|reflexivity].
  unfold layers, CNN_init, make_block; cbn [conv1 conv2 conv3 conv4 fc1 fc2 fc3 app].
  repeat constructor.
Qed.

Lemma forward_output_shape_witness :
  forward true (CNN_init 10) [2; 3; 204; 204] = Ok [2; 10]
  ∧ (∀ x y, forward true (CNN_init 10) x = Ok y →
            ∃ b' h' w', x = [b'; 3; h'; w'] ∧ y = [b'; 10])
  ∧ Forall (λ l, normalizes l = false) (layers (CNN_init 10))
  ∧ last (fc3 (CNN_init 10)) = Some (Linear 512 10).
Proof. apply (forward_output_shape true 10 2 204 204); lia. Defined.

(** C7, as the code has it.  The first dense layer takes 5184 = 64 * 9 * 9
    features.  The four blocks (two unpadded 3x3 convolutions and a 2x2
    pooling each) make a 9 by 9 map, hence 5184 features, of a square input
    of side 204 to 219, and for these the forward pass succeeds.  For any
    other side the forward pass raises: at the first dense layer, on a shape
    mismatch, when the side is at least 76, and in the blocks when it is
    smaller. *)
Theorem fc1_features_and_resolution (tr : bool) (nc b s : nat) :
  b ≠ 0 →
  fc1 (CNN_init nc) = [Dropout; Linear 5184 1024; LeakyReLU]
  ∧ 5184 = flat_size 9 9
  ∧ (204 ≤ s ≤ 219 →
       features tr (CNN_init nc) (rgb_batch b s) = Ok [b; 5184]
       ∧ forward tr (CNN_init nc) (rgb_batch b s) = Ok [b; nc])
  ∧ (76 ≤ s → ¬ 204 ≤ s ≤ 219 →
       ∃ n, features tr (CNN_init nc) (rgb_batch b s) = Ok [b; n]
            ∧ n ≠ 5184
            ∧ sequential tr (fc1 (CNN_init nc)) [b; n] = Raise RuntimeError
            ∧ forward tr (CNN_init nc) (rgb_batch b s) = Raise RuntimeError)
  ∧ (s < 76 →
       ∃ e, features tr (CNN_init nc) (rgb_batch b s) = Raise e
            ∧ forward tr (CNN_init nc) (rgb_batch b s) = Raise e).
Proof.
  intros Hb. split; [reflexivity|]. split; [by rewrite flat_size_9|].
  split; [|split].
  - intros Hs. by apply forward_ok.
  - intros Hs Hout. unfold rgb_batch, forward.
    rewrite features_ok by (done || by apply side3_large).
    set (k := block_side (block_side (block_side (block_side s)))).
    assert (flat_size k k ≠ 5184) as Hk.
    { intros E. apply flat_size_square in E. apply Hout, side4_expected. done. }
    exists (flat_size k k). repeat split; [done|by apply fc1_mismatch|].
    cbn [bind]. unfold classifier. by rewrite fc1_mismatch.
  - intros Hs.
    destruct (not_ok_raise (features tr (CNN_init nc) (rgb_batch b s))) as [e He].
    + intros y Hy. apply features_inv in Hy
        as (b' & h & w & E & _ & _ & _ & _ & H3 & _).
      injection E as <- <- <-. apply side3_large in H3. lia.
    + exists e. split; [done|]. unfold forward. by rewrite He.
Qed.

Lemma fc1_features_and_resolution_witness :
  features true (CNN_init 10) (rgb_batch 2 204) = Ok [2; 5184]
  ∧ forward true (CNN_init 10) (rgb_batch 2 204) = Ok [2; 10].
Proof.
  apply (fc1_features_and_resolution true 10 2 204); lia.
Defined.

(** C7, as the claim has it, fails twice: at the default image size, 224,
    the blocks make 6400 features and the first forward pass raises; and at
    210, which is not the default, the forward pass succeeds. *)
Lemma default_image_size_mismatch :
  Train.image_size Train.default_args = 224
  ∧ features true (CNN_init 10) (rgb_batch 16 224) = Ok [16; 6400]
  ∧ forward true (CNN_init 10)
      (rgb_batch 16 (Train.image_size Train.default_args)) = Raise RuntimeError
  ∧ forward true (CNN_init 10) (rgb_batch 16 210) = Ok [16; 10].
Proof. repeat split; vm_compute; reflexivity. Qed.

End NetTheorems.

(** * Facts about the confusion matrix *)

Section ConfusionFacts.
Import Metrics.

Lemma elem_of_insert_label (x y : nat) (l : list nat) :
  y ∈ insert_label x l ↔ y = x ∨ y ∈ l.
Proof.
  induction l as [|z l IH]; simpl.
  - rewrite list_elem_of_singleton. set_solver.
  - destruct (Nat.ltb_spec x z); [set_solver|].
    destruct (Nat.eqb_spec x z) as [->|]; [set_solver|].
    rewrite !elem_of_cons, IH. tauto.
Qed.

Lemma insert_label_ascending (x : nat) (l : list nat) :
  ascending l → ascending (insert_label x l).
Proof.
  induction l as [|z l IH]; simpl.
  - intros _. split; [constructor|done].
  - intros [Hall Hs]. destruct (Nat.ltb_spec x z).
    + split; [|done]. constructor; [done|].
      eapply Forall_impl; [done|]. simpl. lia.
    + destruct (Nat.eqb_spec x z) as [->|]; [done|].
      simpl. split; [|by apply IH]. apply Forall_forall. intros y Hy.
      apply elem_of_insert_label in Hy as [->|Hy]; [lia|].
      by eapply Forall_forall in Hall.
Qed.

Lemma unique_labels_ascending (y_true y_pred : list nat) :
  ascending (unique_labels y_true y_pred).
Proof.
  unfold unique_labels. induction (y_true ++ y_pred) as [|x l IH]; simpl.
  - done.
  - by apply insert_label_ascending.
Qed.

Lemma elem_of_unique_labels (y_true y_pred : list nat) (x : nat) :
  x ∈ unique_labels y_true y_pred ↔ x ∈ y_true ∨ x ∈ y_pred.
Proof.
  unfold unique_labels. rewrite <- elem_of_app.
  induction (y_true ++ y_pred) as [|z l IH]; simpl; [done|].
  rewrite elem_of_insert_label, IH. set_solver.
Qed.

Lemma ascending_NoDup (l : list nat) : ascending l → NoDup l.
Proof.
  induction l as [|z l IH]; [constructor|]. intros [Hall Hs].
  constructor; [|by apply IH].
  intros Hz. eapply Forall_forall in Hall; [|done]. lia.
Qed.

Lemma sum_indicator (x : nat) (l : list nat) :
  NoDup l → x ∈ l →
  sum_list (map (λ p, if decide (x = p) then 1 else 0) l) = 1.
Proof.
  induction 1 as [|z l Hz Hnd IH]; intros Hx; [by apply elem_of_nil in Hx|].
  simpl. case_decide as E.
  - subst. assert (sum_list (map (λ p, if decide (z = p) then 1 else 0) l) = 0) as ->;
      [|done].
    clear IH Hx Hnd. induction l as [|y l IH]; [done|]. simpl.
    rewrite decide_False by set_solver. apply IH. set_solver.
  - apply elem_of_cons in Hx as [->|Hx]; [done|]. by rewrite IH.
Qed.

Lemma sum_indicator_none (x : nat) (l : list nat) (P : Prop) `{Decision P} :
  ¬ P → sum_list (map (λ p : nat, if decide (P ∧ x = p) then 1 else 0) l) = 0.
Proof.
  intros HP. induction l as [|y l IH]; [done|]. simpl.
  rewrite decide_False by tauto. done.
Qed.

Lemma cell_cons (tp : nat * nat) (pairs : list (nat * nat)) (t p : nat) :
  cell (tp :: pairs) t p
  = (if decide (tp.1 = t ∧ tp.2 = p) then 1 else 0) + cell pairs t p.
Proof.
  unfold cell. rewrite filter_cons. destruct tp as [a b]. simpl.
  destruct (decide ((a, b) = (t, p))) as [E|E].
  - injection E as -> ->. by rewrite decide_True.
  - rewrite decide_False; [done|]. intros [-> ->]. done.
Qed.

Lemma sum_list_map_add {A : Type} (f g : A → nat) (l : list A) :
  sum_list (map (λ x, f x + g x) l) = sum_list (map f l) + sum_list (map g l).
Proof. induction l as [|x l IH]; simpl; [done|]. rewrite IH. lia. Qed.

Lemma sum_list_zero {A : Type} (l : list A) : sum_list (map (λ _, 0) l) = 0.
Proof. by induction l. Qed.

(** The sum of the cells of one row. *)
Lemma row_cells (pairs : list (nat * nat)) (labels : list nat) (t : nat) :
  NoDup labels → (∀ tp, tp ∈ pairs → tp.2 ∈ labels) →
  sum_list (map (cell pairs t) labels)
  = length (filter (λ tp, tp.1 = t) pairs).
Proof.
  intros Hnd. induction pairs as [|tp pairs IH]; intros Hin.
  - apply sum_list_zero.
  - rewrite (map_ext _ (λ p, (if decide (tp.1 = t ∧ tp.2 = p) then 1 else 0)
                              + cell pairs t p)) by (intros; apply cell_cons).
    rewrite sum_list_map_add, IH by (intros; apply Hin; by right).
    rewrite filter_cons. destruct (decide (tp.1 = t)) as [E|E].
    + rewrite (map_ext _ (λ p, if decide (tp.2 = p) then 1 else 0)).
      * rewrite sum_indicator; [done|done|]. apply Hin. by left.
      * intros p. repeat case_decide; tauto || lia.
    + by rewrite sum_indicator_none.
Qed.

Lemma diagonal_cells (pairs : list (nat * nat)) (labels : list nat) :
  NoDup labels → (∀ tp, tp ∈ pairs → tp.1 ∈ labels) →
  sum_list (map (λ t, cell pairs t t) labels)
  = length (filter (λ tp, tp.1 = tp.2) pairs).
Proof.
  intros Hnd. induction pairs as [|tp pairs IH]; intros Hin.
  - apply sum_list_zero.
  - rewrite (map_ext _ (λ t, (if decide (tp.1 = t ∧ tp.2 = t) then 1 else 0)
                              + cell pairs t t)) by (intros; apply cell_cons).
    rewrite sum_list_map_add, IH by (intros; apply Hin; by right).
    rewrite filter_cons. destruct (decide (tp.1 = tp.2)) as [E|E].
    + rewrite (map_ext _ (λ p, if decide (tp.1 = p) then 1 else 0)).
      * rewrite sum_indicator; [done|done|]. apply Hin. by left.
      * intros p. repeat case_decide; try done; exfalso; intuition congruence.
    + rewrite (map_ext _ (λ p, 0)).
      * by rewrite sum_list_zero.
      * intros p. rewrite decide_False; [done|]. intros [H1 H2]. apply E. congruence.
Qed.

Lemma zip_firsts (y_true y_pred : list nat) (t : nat) :
  length y_true = length y_pred →
  length (filter (λ tp, tp.1 = t) (zip y_true y_pred)) = occurs t y_true.
Proof.
  unfold occurs. revert y_pred.
  induction y_true as [|x l IH]; intros [|y l'] Hlen; try done.
  simpl in Hlen. simpl. rewrite !filter_cons. simpl.
  destruct (decide (x = t)); simpl; rewrite (IH l') by lia; done.
Qed.

Lemma zip_equal (y_true y_pred : list nat) :
  length (filter (λ tp, tp.1 = tp.2) (zip y_true y_pred)) = matches y_true y_pred.
Proof.
  unfold matches, count_true, score. revert y_pred.
  induction y_true as [|x l IH]; intros [|y l']; try done.
  simpl. rewrite !filter_cons. simpl.
  destruct (Nat.eqb_spec x y).
  - rewrite !decide_True by done. simpl. by rewrite IH.
  - rewrite !decide_False by done. apply IH.
Qed.

Lemma elem_of_zip (y_true y_pred : list nat) (tp : nat * nat) :
  tp ∈ zip y_true y_pred → tp.1 ∈ y_true ∧ tp.2 ∈ y_pred.
Proof.
  destruct tp as [a b]. intros H. split.
  - by eapply elem_of_zip_l.
  - by eapply elem_of_zip_r.
Qed.

Lemma diagonal_imap (h : nat → nat → nat) (labels pre suf : list nat) :
  labels = pre ++ suf →
  sum_list (imap (λ i row, default 0 (row !! (length pre + i)))
              (map (λ t, map (h t) labels) suf))
  = sum_list (map (λ t, h t t) suf).
Proof.
  revert pre. induction suf as [|t suf IH]; intros pre Hl; [done|].
  simpl. f_equal.
  - rewrite Nat.add_0_r, list_lookup_fmap, Hl.
    by rewrite list_lookup_middle.
  - rewrite <- (IH (pre ++ [t])) by (by rewrite <- app_assoc).
    f_equal. apply imap_ext. intros i row _. simpl.
    rewrite length_app. simpl. do 2 f_equal. lia.
Qed.

(** What does hold of the matrix that [confusion_matrix] returns: it is
    indexed by the labels that occur, in ascending order; the sum of row [i]
    is the number of samples whose ground truth is the [i]-th of these
    labels; the trace is the number of positions where the two lists
    agree. *)
Lemma confusion_matrix_by_labels (y_true y_pred : list nat) (cm : list (list nat)) :
  confusion_matrix y_true y_pred = Ok cm →
  length cm = length (unique_labels y_true y_pred)
  ∧ (∀ i t, unique_labels y_true y_pred !! i = Some t →
            row_sum cm i = occurs t y_true)
  ∧ matrix_trace cm = matches y_true y_pred.
Proof.
  unfold confusion_matrix. destruct (Nat.eqb_spec (length y_true) (length y_pred)) as [Hlen|];
    [|done].
  intros [= <-].
  pose proof (ascending_NoDup _ (unique_labels_ascending y_true y_pred)) as Hnd.
  split; [by rewrite length_map|]. split.
  - intros i t Hi. unfold row_sum. rewrite list_lookup_fmap, Hi. simpl.
    change (map (λ p, cell (zip y_true y_pred) t p))
      with (map (cell (zip y_true y_pred) t)).
    rewrite row_cells; [by apply zip_firsts|done|].
    intros tp Htp. apply elem_of_zip in Htp as [_ H2].
    apply elem_of_unique_labels. by right.
  - unfold matrix_trace.
    etrans; [exact (diagonal_imap (cell (zip y_true y_pred))
                      (unique_labels y_true y_pred) [] _ eq_refl)|].
    rewrite diagonal_cells; [apply zip_equal|done|].
    intros tp Htp. apply elem_of_zip in Htp as [H1 _].
    apply elem_of_unique_labels. by left.
Qed.

End ConfusionFacts.

(** * The validation metrics: accuracy and confusion matrix *)

Section MetricsTheorems.
Import Metrics Train.
Context {W M : Type}.
Variable train_pass : nat → Q → W * M → W * M.
Variable val_outputs : W → list Metrics.batch.

Lemma accuracy_of_batches (batches : list batch) :
  accuracy_score (validation_loop batches).1 (validation_loop batches).2
  = Ok (if decide (total batches = 0) then NaN
        else Num (fraction (correct batches) (total batches))).
Proof.
  rewrite validation_loop_eq. cbn [fst snd].
  case_decide as Hn.
  - rewrite total_length in Hn.
    destruct (concat batches); [done|done].
  - rewrite total_length in Hn.
    rewrite accuracy_score_samples.
    + by rewrite total_length.
    + intros E. by rewrite E in Hn.
Qed.

(** C1.  The accuracy of a validation epoch is the number of samples, over
    all batches, whose predicted label (the argmax of the logits) is the
    ground-truth label, divided by the number of samples of all batches
    (not a number when there is no sample); both accumulated lists have one
    entry per sample; the accuracy is 1 when every sample is right and 0
    when none is; and it is the value that an epoch of the run sends to the
    writer as [Val/Accuracy]. *)
Theorem accuracy_is_exact_match_fraction (batches : list batch) :
  let y := validation_loop batches in
  accuracy_score y.1 y.2
  = Ok (if decide (total batches = 0) then NaN
        else Num (fraction (correct batches) (total batches)))
  ∧ y.1 = map snd (concat batches)
  ∧ y.2 = map (λ s, argmax (fst s)) (concat batches)
  ∧ length y.1 = total batches
  ∧ length y.2 = total batches
  ∧ (0 < total batches → correct batches = total batches →
       ∃ q, accuracy_score y.1 y.2 = Ok (Num q) ∧ (q == 1)%Q)
  ∧ (0 < total batches → correct batches = 0 →
       ∃ q, accuracy_score y.1 y.2 = Ok (Num q) ∧ (q == 0)%Q)
  ∧ (∀ a e (st : state W M),
       ready a st → batches = epoch_batches train_pass val_outputs e st →
       0 < total batches →
       ∃ st', run_epoch train_pass val_outputs a e st = Ok st'
              ∧ AddScalar "Val/Accuracy"
                  (Num (fraction (correct batches) (total batches))) e
                ∈ trace st').
Proof.
  intros y. split; [apply accuracy_of_batches|].
  subst y. rewrite validation_loop_eq. cbn [fst snd].
  split; [done|]. split; [done|].
  rewrite !length_map, total_length. split; [done|]. split; [done|].
  rewrite <- total_length.
  pose proof (accuracy_of_batches batches) as Hacc.
  rewrite validation_loop_eq in Hacc. cbn [fst snd] in Hacc.
  split; [|split].
  - intros Hn Hall. rewrite Hacc, decide_False by lia.
    eexists. split; [done|]. rewrite Hall. by apply fraction_full.
  - intros Hn Hnone. rewrite Hacc, decide_False by lia.
    eexists. split; [done|]. rewrite Hnone. apply fraction_none.
  - intros a e st Hr -> Hn.
    destruct (run_epoch_ok train_pass val_outputs a e st Hr Hn) as (cm & ->).
    eexists. split; [done|]. cbn [trace epoch_post].
    apply elem_of_app. right. apply elem_of_app. left. apply list_elem_of_here.
Qed.

(** C4.  Ground truth [0,0,1,1] and predictions [0,1,1,1]: the accuracy is
    3/4 = 0.75 and the confusion matrix is [[1,1],[0,2]]. *)
Theorem scenario_two_classes_four_samples :
  accuracy_score [0; 0; 1; 1] [0; 1; 1; 1] = Ok (Num (3 # 4))
  ∧ (3 # 4 == 0.75)%Q
  ∧ confusion_matrix [0; 0; 1; 1] [0; 1; 1; 1] = Ok [[1; 1]; [0; 2]].
Proof. repeat split. Qed.

(** C5, at an input where it fails.  Three classes, a validation set with
    one sample of class 0 and one of class 2, both predicted right: the matrix
    has two rows, and the sum of row 1 is 1, the count of class 2, while no
    sample has ground truth 1.  The figure is drawn from this 2 by 2 matrix
    with the three class names that [train] passes. *)
Theorem confusion_matrix_indexed_by_present_labels :
  confusion_matrix [0; 2] [0; 2] = Ok [[1; 0]; [0; 1]]
  ∧ row_sum [[1; 0]; [0; 1]] 1 = 1
  ∧ occurs 1 [0; 2] = 0
  ∧ occurs 2 [0; 2] = 1
  ∧ unique_labels [0; 2] [0; 2] = [0; 2]
  ∧ matrix_trace [[1; 0]; [0; 1]] = matches [0; 2] [0; 2]
  ∧ plot_confusion_matrix (W:=nat) (M:=unit) [] [[1; 0]; [0; 1]] (seq 0 3) 0
    = Ok [AddFigure "confusion_matrix" [[1; 0]; [0; 1]] 0]
  ∧ length (seq 0 3) = 3.
Proof. repeat split. Qed.

End MetricsTheorems.

(** * Checkpoints: what is written, and when *)

Section CheckpointTheorems.
Import Train.
Context {W M : Type}.
Variable train_pass : nat → Q → W * M → W * M.
Variable val_outputs : W → list Metrics.batch.
Implicit Types (a : args) (st : state W M) (e : nat).

Lemma append_inj_l (a x y : string) : a +:+ x = a +:+ y → x = y.
Proof.
  induction a as [|c a IH]; [done|].
  change (String c a +:+ x) with (String c (a +:+ x)).
  change (String c a +:+ y) with (String c (a +:+ y)).
  intros E. injection E as E. by apply IH.
Qed.

Lemma last_pt_ne_best_pt a : last_pt a ≠ best_pt a.
Proof.
  unfold last_pt, best_pt, FS.join. case_decide; [done|].
  intros E. by apply append_inj_l in E.
Qed.

(** What holds when the loop has run the epochs [es] and enters epoch [e]. *)
Lemma run_then_epoch a es e st0 :
  validation_nonempty val_outputs → ready a st0 →
  ∃ st1 evs cm,
    run_epochs train_pass val_outputs a es st0 = Ok st1
    ∧ ready a st1
    ∧ trace st1 = trace st0 ++ evs
    ∧ greatest (best_acc st1) (best_acc st0 :: accuracies evs)
    ∧ run_epochs train_pass val_outputs a (es ++ [e]) st0
      = Ok (epoch_post train_pass val_outputs a e st1
              (py_gt (Num (epoch_accuracy train_pass val_outputs e st1))
                     (best_acc st1)) cm).
Proof.
  intros Hval Hr.
  destruct (run_epochs_total train_pass val_outputs a es st0 Hval Hr) as (st1 & Hes & Hr1).
  destruct (run_epochs_best train_pass val_outputs a es st0 st1 Hval Hr Hes)
    as (evs & Htr & Hgr).
  destruct (run_epoch_ok train_pass val_outputs a e st1 Hr1 (Hval _)) as (cm & Hep).
  exists st1, evs, cm. repeat split; try done; try apply Hr1; try apply Hgr.
  rewrite run_epochs_snoc, Hes. done.
Qed.

Lemma greatest_exceeds (m x : Q) (l : list Q) :
  greatest m l → (m < x)%Q ↔ Forall (λ b, (b < x)%Q) l.
Proof.
  intros [Hin Hmax]. rewrite Forall_forall. split.
  - intros Hlt b Hb. eapply Qle_lt_trans; [by apply Hmax|done].
  - intros Hall. by apply Hall.
Qed.

(** C2.  In a run of the loop from any state in which the trained-model
    directory is ready, with a non-empty validation loader: after the epochs
    [es], epoch [e] completes; the running best it starts from is the
    greatest of the initial (fresh or resumed) best and the accuracies of the
    earlier epochs; the epoch always saves its checkpoint as [last.pt]; it
    saves it as [best.pt] exactly when its accuracy strictly exceeds the
    running best, that is, the initial best and every earlier accuracy, and
    then records its accuracy as the running best; otherwise [best.pt] and
    the running best stay as they were. *)
Theorem checkpoint_policy a es e st0 :
  validation_nonempty val_outputs → ready a st0 →
  ∃ st1 st2 evs cm ck,
    let acc := epoch_accuracy train_pass val_outputs e st1 in
    let reports := [AddScalar "Val/Accuracy" (Num acc) e;
                    AddFigure "confusion_matrix" cm e] in
    run_epochs train_pass val_outputs a es st0 = Ok st1
    ∧ run_epochs train_pass val_outputs a (es ++ [e]) st0 = Ok st2
    ∧ trace st1 = trace st0 ++ evs
    ∧ greatest (best_acc st1) (best_acc st0 :: accuracies evs)
    ∧ ck_epoch ck = e
    ∧ fs st2 !! last_pt a = Some (FS.File (Pickle ck))
    ∧ ((best_acc st1 < acc)%Q
       ↔ Forall (λ b, (b < acc)%Q) (best_acc st0 :: accuracies evs))
    ∧ ((best_acc st1 < acc)%Q →
         trace st2 = trace st1 ++ reports
                     ++ [Saved (last_pt a) ck; Saved (best_pt a) ck]
         ∧ fs st2 !! best_pt a = Some (FS.File (Pickle ck))
         ∧ best_acc st2 = acc)
    ∧ (¬ (best_acc st1 < acc)%Q →
         trace st2 = trace st1 ++ reports ++ [Saved (last_pt a) ck]
         ∧ fs st2 !! best_pt a = fs st1 !! best_pt a
         ∧ best_acc st2 = best_acc st1).
Proof.
  intros Hval Hr.
  destruct (run_then_epoch a es e st0 Hval Hr)
    as (st1 & evs & cm & Hes & Hr1 & Htr & Hgr & Hrun).
  eexists st1, _, evs, cm, (epoch_checkpoint train_pass a e st1).
  cbn zeta. split; [done|]. split; [exact Hrun|].
  split; [done|]. split; [done|]. split; [done|].
  pose proof (last_pt_ne_best_pt a) as Hne.
  split; [|split; [by apply greatest_exceeds|split]].
  - cbn [fs epoch_post]. destruct (py_gt _ _).
    + rewrite lookup_insert_ne by done. apply lookup_insert_eq.
    + apply lookup_insert_eq.
  - intros Hlt. apply py_gt_lt in Hlt. rewrite Hlt. cbn [trace fs best_acc epoch_post].
    split; [done|]. split; [apply lookup_insert_eq|done].
  - intros Hle. apply Qnot_lt_le, py_gt_le in Hle. rewrite Hle.
    cbn [trace fs best_acc epoch_post]. split; [done|]. split; [|done].
    unfold id. by rewrite lookup_insert_ne.
Qed.

(** C10.  Every checkpoint that epoch [e] saves, [last.pt] always and
    [best.pt] when written, is the record of epoch [e] and holds as
    [best_acc] the running best with which the epoch started: the greatest of
    the initial best and the accuracies of the earlier epochs.  The
    [best.pt] written because epoch [e] set a new best therefore holds a
    value strictly below the accuracy of epoch [e], which only the running
    best of the loop takes. *)
Theorem checkpoint_holds_previous_best a es e st0 :
  validation_nonempty val_outputs → ready a st0 →
  ∃ st1 st2 evs new,
    run_epochs train_pass val_outputs a es st0 = Ok st1
    ∧ run_epochs train_pass val_outputs a (es ++ [e]) st0 = Ok st2
    ∧ trace st1 = trace st0 ++ evs
    ∧ trace st2 = trace st1 ++ new
    ∧ greatest (best_acc st1) (best_acc st0 :: accuracies evs)
    ∧ (∃ c, Saved (last_pt a) c ∈ new)
    ∧ (∀ p c, Saved p c ∈ new →
         ck_epoch c = e ∧ ck_best_acc c = best_acc st1
         ∧ fs st2 !! p = Some (FS.File (Pickle c)))
    ∧ (∀ c, Saved (best_pt a) c ∈ new →
         (ck_best_acc c < epoch_accuracy train_pass val_outputs e st1)%Q
         ∧ best_acc st2 = epoch_accuracy train_pass val_outputs e st1).
Proof.
  intros Hval Hr.
  destruct (run_then_epoch a es e st0 Hval Hr)
    as (st1 & evs & cm & Hes & Hr1 & Htr & Hgr & Hrun).
  pose proof (last_pt_ne_best_pt a) as Hne.
  eexists st1, _, evs, _.
  split; [done|]. split; [exact Hrun|]. split; [done|].
  split; [reflexivity|]. split; [done|].
  destruct (py_gt _ _) eqn:Hgt; cbn [fs best_acc epoch_post app].
  - apply py_gt_lt in Hgt. split; [|split].
    + eexists. do 2 apply list_elem_of_further. apply list_elem_of_here.
    + intros p c Hin. repeat (apply elem_of_cons in Hin as [Hin|Hin]; try done).
      * injection Hin as -> ->. repeat split.
        rewrite lookup_insert_ne by done. apply lookup_insert_eq.
      * injection Hin as -> ->. repeat split. apply lookup_insert_eq.
      * by apply elem_of_nil in Hin.
    + intros c Hin. repeat (apply elem_of_cons in Hin as [Hin|Hin]; try done).
      * injection Hin as E ->. by destruct Hne.
      * injection Hin as ->. done.
      * by apply elem_of_nil in Hin.
  - split; [|split].
    + eexists. do 2 apply list_elem_of_further. apply list_elem_of_here.
    + intros p c Hin. repeat (apply elem_of_cons in Hin as [Hin|Hin]; try done).
      * injection Hin as -> ->. repeat split. apply lookup_insert_eq.
      * by apply elem_of_nil in Hin.
    + intros c Hin. repeat (apply elem_of_cons in Hin as [Hin|Hin]; try done).
      * injection Hin as E ->. by destruct Hne.
      * by apply elem_of_nil in Hin.
Qed.

End CheckpointTheorems.

(** * More facts about the file system: removing and making directories *)

Section FSFacts2.
Context {C : Type}.
Implicit Types (d : gmap string (FS.node C)) (p q : string).

Lemma rmtree_lookup d p q :
  FS.rmtree d p !! q = if FS.within p q then None else d !! q.
Proof.
  unfold FS.rmtree. destruct (FS.within p q) eqn:Hw.
  - apply map_lookup_filter_None. right. intros x _. simpl. rewrite Hw. simpl. tauto.
  - destruct (d !! q) as [x|] eqn:Hq.
    + apply map_lookup_filter_Some. split; [done|]. simpl. rewrite Hw. simpl. done.
    + apply map_lookup_filter_None. by left.
Qed.

Lemma within_refl p : FS.within p p = true.
Proof. unfold FS.within. by rewrite bool_decide_eq_true_2. Qed.

Lemma length_append (a b : string) :
  String.length (a +:+ b) = String.length a + String.length b.
Proof.
  induction a as [|c a IH]; [done|].
  change (String c a +:+ b) with (String c (a +:+ b)). simpl. by rewrite IH.
Qed.

Lemma prefix_length (a b : string) :
  String.prefix a b = true → String.length a ≤ String.length b.
Proof.
  revert b. induction a as [|c a IH]; intros b; [simpl; lia|].
  destruct b as [|c' b]; simpl; [done|]. destruct (Ascii.ascii_dec c c'); [|done].
  intros H. apply IH in H. lia.
Qed.

Lemma has_sep_nonempty p : FS.has_sep p = true → p ≠ EmptyString.
Proof. by destruct p. Qed.

Lemma dirname_shorter p :
  p ≠ EmptyString → String.length (FS.dirname p) < String.length p.
Proof.
  induction p as [|c r IH]; [done|]. intros _. simpl.
  destruct (FS.has_sep r) eqn:Hs; simpl; [|lia].
  apply has_sep_nonempty in Hs. apply IH in Hs. lia.
Qed.

Lemma within_length p q : FS.within p q = true → String.length p ≤ String.length q.
Proof.
  unfold FS.within. intros H. apply orb_true_iff in H as [H|H].
  - apply bool_decide_eq_true in H as ->. lia.
  - apply prefix_length in H. rewrite length_append in H. lia.
Qed.

Lemma within_dirname p : p ≠ EmptyString → FS.within p (FS.dirname p) = false.
Proof.
  intros Hp. apply not_true_is_false. intros H.
  apply within_length in H. apply dirname_shorter in Hp. lia.
Qed.

Lemma isdir_rmtree d p q :
  FS.isdir (FS.rmtree d p) q = if FS.within p q then false else FS.isdir d q.
Proof.
  unfold FS.isdir, FS.stat. case_decide as Hq.
  - by destruct (FS.within p q).
  - rewrite rmtree_lookup. by destruct (FS.within p q).
Qed.

Lemma parent_ok_rmtree d p :
  p ≠ EmptyString → FS.parent_ok d p = true → FS.parent_ok (FS.rmtree d p) p = true.
Proof.
  intros Hp. unfold FS.parent_ok. case_decide; [done|].
  by rewrite isdir_rmtree, within_dirname.
Qed.

Lemma isdir_insert_dir d p q :
  p ≠ EmptyString →
  FS.isdir (<[p := FS.Dir]> d) q = if decide (q = p) then true else FS.isdir d q.
Proof.
  intros Hp. unfold FS.isdir, FS.stat. case_decide as Hq.
  - case_decide; [congruence|done].
  - case_decide as Hqp.
    + subst. by rewrite lookup_insert_eq.
    + by rewrite lookup_insert_ne.
Qed.

Lemma mkdir_ok d p :
  p ≠ EmptyString → d !! p = None → FS.parent_ok d p = true →
  FS.mkdir d p = Ok (<[p := FS.Dir]> d).
Proof.
  intros Hp Hd Hpar. unfold FS.mkdir. rewrite decide_False by done.
  by rewrite Hd, Hpar.
Qed.

Lemma mkdir_inv d p d' :
  FS.mkdir d p = Ok d' → p ≠ EmptyString ∧ d !! p = None ∧ d' = <[p := FS.Dir]> d.
Proof.
  unfold FS.mkdir. case_decide; [done|]. destruct (d !! p); [done|].
  destruct (FS.parent_ok d p); [|done]. by intros [= <-].
Qed.

End FSFacts2.

(** * Before the loop: resuming and the directories *)

Section SetupTheorems.
Import Train.
Context {W M : Type}.
Implicit Types (a : args) (st : state W M) (d : gmap string (FS.node (content W M))).

Lemma MultiStepLR_fresh a (m0 : M) :
  MultiStepLR {| group_lr := lr a; initial_lr := None; moments := m0 |}
    [30; 60; 90]%Z (1 # 10)
  = (sched0 a, adam0 a m0).
Proof. reflexivity. Qed.

Lemma write_file_inv {C : Type} (x y : gmap string (FS.node C)) p (c : C) :
  FS.write_file x p c = Ok y →
  p ≠ EmptyString ∧ FS.isdir x p = false ∧ y = <[p := FS.File c]> x.
Proof.
  unfold FS.write_file. case_decide; [done|].
  destruct (FS.isdir x p); [done|]. destruct (FS.parent_ok x p); [|done].
  by intros [= <-].
Qed.

Lemma setup_inv a cats (w0 : W) (m0 : M) (log : string) d st0 start :
  setup a cats w0 m0 log d = Ok (st0, start) →
  ∃ d1 d2,
    resume a d {| num_classes := cats; weights := w0 |} (adam0 a m0)
    = Ok (model st0, optimizer st0, start, best_acc st0)
    ∧ reset_tensorboard d (tensorboard_path a) = Ok d1
    ∧ ensure_trained d1 (trained_path a) = Ok d2
    ∧ SummaryWriter d2 (tensorboard_path a) log = Ok (fs st0)
    ∧ trace st0 = []
    ∧ scheduler st0 = sched0 a.
Proof.
  unfold setup. rewrite MultiStepLR_fresh. intros H.
  apply bind_ok in H as ([[[m o] s] b] & Hres & H).
  apply bind_ok in H as (d1 & Hd1 & H).
  apply bind_ok in H as (d2 & Hd2 & H).
  apply bind_ok in H as (d3 & Hd3 & H).
  injection H as <- <-. by exists d1, d2.
Qed.

Lemma resumes_spec a d :
  resumes a d = match checkpoint_path a with
                | Some p => if FS.isfile d p then Some p else None
                | None => None
                end.
Proof.
  unfold resumes. destruct (checkpoint_path a) as [p|]; [|done].
  case_bool_decide as Hp; [|done]. subst. by cbn.
Qed.

Lemma torch_load_lookup d p ck :
  p ≠ EmptyString → d !! p = Some (FS.File (Pickle ck)) → torch_load d p = Ok ck.
Proof.
  intros Hp Hd. unfold torch_load, FS.stat. rewrite decide_False by done.
  by rewrite Hd.
Qed.

Lemma resume_resumed a d (m : model_state W) (o : optim_state M) p ck :
  checkpoint_path a = Some p → FS.isfile d p = true →
  d !! p = Some (FS.File (Pickle ck)) →
  num_classes (ck_model ck) = num_classes m →
  resume a d m o
  = Ok ({| num_classes := num_classes m; weights := weights (ck_model ck) |},
        ck_optimizer ck, ck_epoch ck + 1, ck_best_acc ck).
Proof.
  intros Hp Hf Hd Hn. unfold resume. rewrite resumes_spec, Hp, Hf.
  apply isfile_lookup in Hf as [Hne _].
  rewrite (torch_load_lookup d p ck) by done. cbn [bind].
  unfold load_state_dict. by rewrite Hn, Nat.eqb_refl.
Qed.

Lemma resume_fresh a d (m : model_state W) (o : optim_state M) :
  resumes a d = None → resume a d m o = Ok (m, o, 0, 0%Q).
Proof. intros H. unfold resume. by rewrite H. Qed.

Lemma torch_save_lookup d0 p (ck : checkpoint W M) d :
  torch_save d0 p ck = Ok d →
  FS.isfile d p = true ∧ d !! p = Some (FS.File (Pickle ck)).
Proof.
  unfold torch_save, FS.write_file. case_decide as Hp; [done|].
  destruct (FS.isdir d0 p); [done|]. destruct (FS.parent_ok d0 p); [|done].
  intros [= <-]. split; [|apply lookup_insert_eq].
  apply isfile_lookup. split; [done|]. eexists. apply lookup_insert_eq.
Qed.

Lemma ensure_trained_inv d tp d' :
  ensure_trained d tp = Ok d' →
  FS.isdir d' tp = true ∧ (d' = d ∨ d' = <[tp := FS.Dir]> d).
Proof.
  unfold ensure_trained. destruct (FS.isdir d tp) eqn:Hd; cbn [negb].
  - intros [= <-]. eauto.
  - intros H. apply mkdir_inv in H as (Hp & _ & ->). split; [|by right].
    rewrite isdir_insert_dir by done. by rewrite decide_True.
Qed.

Lemma reset_tensorboard_ok d tb :
  FS.isfile d tb = false → tb ≠ EmptyString → FS.parent_ok d tb = true →
  reset_tensorboard d tb
  = Ok (<[tb := FS.Dir]> (if FS.isdir d tb then FS.rmtree d tb else d)).
Proof.
  intros Hf Hp Hpar. unfold reset_tensorboard.
  destruct (FS.isdir d tb) eqn:Hd.
  - apply mkdir_ok; [done| |by apply parent_ok_rmtree].
    by rewrite rmtree_lookup, within_refl.
  - apply mkdir_ok; [done| |done].
    unfold FS.isdir, FS.isfile, FS.stat in Hd, Hf.
    rewrite decide_False in Hd, Hf by done.
    by destruct (d !! tb) as [[|c]|].
Qed.

(** C3.  When the checkpoint path is given and is a file that holds a saved
    checkpoint whose network has the class count of the model, [resume]
    takes the resumed branch: the starting epoch is the saved epoch plus one
    and the best accuracy is the saved one, with the saved weights and
    optimizer state; a run set up on that disk starts with these values; the
    values come back from a checkpoint that [torch.save] has just written.
    When no path is given, or the path is not a file, the starting epoch and
    the best accuracy are zero and model and optimizer are the fresh ones. *)
Theorem resume_restores_saved a d (m : model_state W) (o : optim_state M) p ck :
  checkpoint_path a = Some p → FS.isfile d p = true →
  d !! p = Some (FS.File (Pickle ck)) →
  num_classes (ck_model ck) = num_classes m →
  (∃ m', resume a d m o = Ok (m', ck_optimizer ck, ck_epoch ck + 1, ck_best_acc ck)
         ∧ weights m' = weights (ck_model ck))
  ∧ (∀ w0 m0 log st0 start,
       setup a (num_classes m) w0 m0 log d = Ok (st0, start) →
       start = ck_epoch ck + 1 ∧ best_acc st0 = ck_best_acc ck)
  ∧ (∀ d0 d1 c,
       torch_save d0 p c = Ok d1 → num_classes (ck_model c) = num_classes m →
       ∃ m', resume a d1 m o
             = Ok (m', ck_optimizer c, ck_epoch c + 1, ck_best_acc c))
  ∧ (∀ a' d' (m' : model_state W) (o' : optim_state M),
       checkpoint_path a' = None
       ∨ (∃ q, checkpoint_path a' = Some q ∧ FS.isfile d' q = false) →
       resume a' d' m' o' = Ok (m', o', 0, 0%Q)
       ∧ ∀ cats w0 m0 log st0 start,
           setup a' cats w0 m0 log d' = Ok (st0, start) →
           start = 0 ∧ best_acc st0 = 0%Q).
Proof.
  intros Hp Hf Hd Hn. split; [|split; [|split]].
  - eexists. split; [by apply (resume_resumed a d m o p ck)|done].
  - intros w0 m0 log st0 start Hs. apply setup_inv in Hs as (d1 & d2 & Hres & _).
    rewrite (resume_resumed a d _ _ p ck) in Hres by done.
    by injection Hres as _ _ <- <-.
  - intros d0 d1 c Hsave Hc. apply torch_save_lookup in Hsave as [Hf1 Hd1].
    eexists. by apply (resume_resumed a d1 m o p c).
  - intros a' d' m' o' Hfresh.
    assert (resumes a' d' = None) as Hnone.
    { rewrite resumes_spec. destruct Hfresh as [->|(q & -> & ->)]; done. }
    split; [by apply resume_fresh|].
    intros cats w0 m0 log st0 start Hs.
    apply setup_inv in Hs as (d1 & d2 & Hres & _).
    rewrite resume_fresh in Hres by done. by injection Hres as _ _ <- <-.
Qed.


End SetupTheorems.

(** * The learning-rate schedule along a run *)

Section ScheduleTheorems.
Import Train.
Context {W M : Type}.
Variable train_pass : nat → Q → W * M → W * M.
Variable val_outputs : W → list Metrics.batch.
Implicit Types (a : args) (st : state W M) (d : gmap string (FS.node (content W M))).

Lemma crossed_step (n : nat) :
  crossed (S n) = if bool_decide (Z.of_nat (S n) ∈ [30; 60; 90]%Z)
                  then S (crossed n) else crossed n.
Proof.
  unfold crossed. rewrite !filter_cons, !filter_nil.
  case_bool_decide as Hm.
  - repeat (apply elem_of_cons in Hm as [Hm|Hm]);
      [| | |by apply elem_of_nil in Hm];
      repeat case_decide; simpl; lia.
  - assert (S n ≠ 30 ∧ S n ≠ 60 ∧ S n ≠ 90) as (H1 & H2 & H3).
    { repeat split; intros E; apply Hm; rewrite E;
        repeat (first [apply list_elem_of_here | apply list_elem_of_further]). }
    repeat case_decide; simpl; lia.
Qed.

Lemma occurrences_milestone (z : Z) :
  z ∈ [30; 60; 90]%Z → occurrences [30; 60; 90]%Z z = 1.
Proof.
  intros H. unfold occurrences.
  repeat (apply elem_of_cons in H as [->|H]); [done|done|done|].
  by apply elem_of_nil in H.
Qed.

Lemma decayed_step (lr0 x : Q) (n : nat) (s : lr_scheduler) (o : optim_state M) :
  on_schedule s (S n) → (group_lr o == decayed lr0 n)%Q →
  (get_lr s o == decayed lr0 (S n))%Q.
Proof.
  intros (Hms & Hg & Hl) Ho. unfold get_lr, decayed.
  rewrite crossed_step, Hms, Hl, Hg.
  case_bool_decide as Hm.
  - rewrite occurrences_milestone by done. rewrite Ho. unfold decayed.
    rewrite (Nat2Z.inj_succ (crossed n)), <- Z.add_1_r, Qpower_plus by done.
    change ((1 # 10) ^ Z.of_nat 1)%Q with (1 # 10).
    change ((1 # 10) ^ 1)%Q with (1 # 10). ring.
  - done.
Qed.

Lemma run_epochs_schedule a es st0 st :
  validation_nonempty val_outputs → ready a st0 →
  on_schedule (scheduler st0) 0 →
  run_epochs train_pass val_outputs a es st0 = Ok st →
  on_schedule (scheduler st) (length es)
  ∧ (group_lr (optimizer st) == decayed (group_lr (optimizer st0)) (length es))%Q.
Proof.
  intros Hval Hr Hs0. revert st.
  induction es as [|e es IH] using rev_ind; intros st Hrun.
  - simpl in Hrun. injection Hrun as <-. split; [done|].
    unfold decayed. change (crossed 0) with 0. simpl. ring.
  - rewrite run_epochs_snoc in Hrun.
    destruct (run_epochs_total train_pass val_outputs a es st0 Hval Hr)
      as (st1 & Hes & Hr1).
    rewrite Hes in Hrun. cbn [bind] in Hrun.
    destruct (run_epoch_ok train_pass val_outputs a e st1 Hr1 (Hval _)) as (cm & Hep).
    rewrite Hep in Hrun. injection Hrun as <-.
    destruct (IH st1 Hes) as ((Hms & Hg & Hl) & Hlr).
    rewrite length_app. cbn [length]. rewrite Nat.add_1_r.
    cbn [scheduler optimizer epoch_post scheduler_step fst snd].
    assert (on_schedule
              {| milestones := milestones (scheduler st1);
                 gamma := gamma (scheduler st1);
                 base_lr := base_lr (scheduler st1);
                 last_epoch := (last_epoch (scheduler st1) + 1)%Z |}
              (S (length es))) as Hon.
    { repeat split; try done. cbn [last_epoch]. rewrite Hl. lia. }
    split; [done|]. cbn [group_lr]. apply (decayed_step _ 0%Q); done.
Qed.

End ScheduleTheorems.

Section ScheduleClaim.
Import Train.
Context {W M : Type}.
Variable train_pass : nat → Q → W * M → W * M.
Variable val_outputs : W → list Metrics.batch.
Implicit Types (a : args) (st : state W M) (d : gmap string (FS.node (content W M))).

Lemma setup_starting_lr a cats (w0 : W) (m0 : M) (log : string) d st0 start :
  setup a cats w0 m0 log d = Ok (st0, start) →
  group_lr (optimizer st0) = starting_lr a d.
Proof.
  intros Hs. apply setup_inv in Hs as (d1 & d2 & Hres & _).
  unfold resume in Hres. unfold starting_lr.
  destruct (resumes a d) as [p|].
  - destruct (torch_load d p) as [ck|err]; [|done]. cbn [bind] in Hres.
    destruct (load_state_dict _ _) as [m'|err]; [|done]. cbn [bind] in Hres.
    by injection Hres as _ <- _ _.
  - by injection Hres as _ <- _ _.
Qed.

Lemma setup_ready a cats (w0 : W) (m0 : M) (log : string) d st0 start :
  setup a cats w0 m0 log d = Ok (st0, start) →
  FS.isdir (fs st0) (last_pt a) = false →
  FS.isdir (fs st0) (best_pt a) = false →
  ready a st0 ∧ on_schedule (scheduler st0) 0.
Proof.
  intros Hs Hl Hb.
  apply setup_inv in Hs as (d1 & d2 & _ & _ & Hens & Hwr & _ & Hsched).
  apply ensure_trained_inv in Hens as [Hdir _].
  apply write_file_inv in Hwr as (_ & Hnd & Hfs).
  split; [|by rewrite Hsched]. split; [|done].
  rewrite Hfs, isdir_insert_file. case_decide as E; [|done]. congruence.
Qed.


End ScheduleClaim.

Section Instances.
Import Train.

Lemma sample_validation_nonempty : validation_nonempty Sample.val_outputs.
Proof. intros w. unfold Sample.val_outputs. vm_compute. lia. Defined.

Lemma sample_entry_ready : ready Sample.fresh_args Sample.entry.
Proof. vm_compute. repeat split. Defined.


Lemma accuracy_is_exact_match_fraction_witness :
  ∃ q, Metrics.accuracy_score
         (Metrics.validation_loop (Sample.val_outputs 2)).1
         (Metrics.validation_loop (Sample.val_outputs 2)).2
       = Ok (Num q) ∧ (q == 1)%Q.
Proof.
  apply (accuracy_is_exact_match_fraction Sample.train_pass Sample.val_outputs
           (Sample.val_outputs 2));
    vm_compute; lia.
Defined.

Lemma checkpoint_policy_witness :
  validation_nonempty Sample.val_outputs
  ∧ ready Sample.fresh_args Sample.entry
  ∧ ∃ st2 ck,
      run_epochs Sample.train_pass Sample.val_outputs Sample.fresh_args
        ([0] ++ [1]) Sample.entry = Ok st2
      ∧ fs st2 !! last_pt Sample.fresh_args = Some (FS.File (Pickle ck)).
Proof.
  split; [exact sample_validation_nonempty|].
  split; [exact sample_entry_ready|].
  destruct (checkpoint_policy Sample.train_pass Sample.val_outputs
              Sample.fresh_args [0] 1 Sample.entry
              sample_validation_nonempty sample_entry_ready)
    as (st1 & st2 & evs & cm & ck & _ & Hrun & _ & _ & _ & Hlast & _).
  exists st2, ck. split; [exact Hrun|exact Hlast].
Defined.

Lemma checkpoint_holds_previous_best_witness :
  validation_nonempty Sample.val_outputs
  ∧ ready Sample.fresh_args Sample.entry
  ∧ ∃ st1 st2,
      run_epochs Sample.train_pass Sample.val_outputs Sample.fresh_args
        [0] Sample.entry = Ok st1
      ∧ run_epochs Sample.train_pass Sample.val_outputs Sample.fresh_args
          ([0] ++ [1]) Sample.entry = Ok st2.
Proof.
  split; [exact sample_validation_nonempty|].
  split; [exact sample_entry_ready|].
  destruct (checkpoint_holds_previous_best Sample.train_pass Sample.val_outputs
              Sample.fresh_args [0] 1 Sample.entry
              sample_validation_nonempty sample_entry_ready)
    as (st1 & st2 & evs & new & H1 & H2 & _).
  exists st1, st2. split; [exact H1|exact H2].
Defined.

Lemma resume_restores_saved_witness :
  ∃ m', resume Sample.resume_args Sample.saved_disk
          {| num_classes := 2; weights := 0 |} (adam0 Sample.resume_args tt)
        = Ok (m', ck_optimizer Sample.saved, 31 + 1, 1%Q)
        ∧ weights m' = 7.
Proof.
  apply (resume_restores_saved Sample.resume_args Sample.saved_disk
           {| num_classes := 2; weights := 0 |} (adam0 Sample.resume_args tt)
           "out/last.pt" Sample.saved);
    reflexivity.
Defined.



End Instances.

(** * Further properties of the epoch loop *)

Section ResumeAfterRun.
Import Train.
Context {W M : Type}.
Variable train_pass : nat → Q → W * M → W * M.
Variable val_outputs : W → list Metrics.batch.
Implicit Types (a : args) (st : state W M) (e : nat).

(** X1.  Save, then resume.  After an epoch that starts in a ready state
    with a non-empty validation loader, resuming from the [last.pt] it wrote
    (with a model of the same class count) gives the next epoch index, the
    weights and moments the epoch ended with, the learning rate the epoch ran
    with (the one before the scheduler step that ends the epoch), and the
    best accuracy the epoch started with: never more than the best accuracy
    of the running loop, and strictly less when the epoch set a new best. *)
Theorem resume_after_epoch a e st a' (m : model_state W) (o : optim_state M) :
  ready a st →
  0 < Metrics.total (epoch_batches train_pass val_outputs e st) →
  checkpoint_path a' = Some (last_pt a) →
  num_classes m = num_classes (model st) →
  ∃ st',
    run_epoch train_pass val_outputs a e st = Ok st'
    ∧ resume a' (fs st') m o
      = Ok ({| num_classes := num_classes m; weights := weights (model st') |},
            {| group_lr := group_lr (optimizer st);
               initial_lr := initial_lr (optimizer st');
               moments := moments (optimizer st') |},
            e + 1, best_acc st)
    ∧ (best_acc st <= best_acc st')%Q
    ∧ ((best_acc st < epoch_accuracy train_pass val_outputs e st)%Q →
       (best_acc st < best_acc st')%Q).
Proof.
  intros Hr Hn Hp Hm.
  destruct (run_epoch_ok train_pass val_outputs a e st Hr Hn) as (cm & Hrun).
  eexists. split; [exact Hrun|].
  pose proof (last_pt_ne_best_pt a) as Hne.
  assert (last_pt a ≠ EmptyString) as Hl by (by apply join_nonempty).
  split; [|split].
  - rewrite (resume_resumed a' _ m o (last_pt a)
               (epoch_checkpoint train_pass a e st)); [done|done| |  |done].
    + apply isfile_lookup. split; [done|]. eexists. cbn [fs epoch_post].
      destruct (py_gt _ _); [rewrite lookup_insert_ne by done|];
        apply lookup_insert_eq.
    + cbn [fs epoch_post].
      destruct (py_gt _ _); [rewrite lookup_insert_ne by done|];
        apply lookup_insert_eq.
  - cbn [best_acc epoch_post]. destruct (py_gt _ _) eqn:Hgt.
    + apply py_gt_lt in Hgt. by apply Qlt_le_weak.
    + apply Qle_refl.
  - intros Hlt. cbn [best_acc epoch_post].
    pose proof Hlt as Hgt. apply py_gt_lt in Hgt. by rewrite Hgt.
Qed.

End ResumeAfterRun.

Section RunExtras.
Import Train Observe.
Context {W M : Type}.
Variable train_pass : nat → Q → W * M → W * M.
Variable val_outputs : W → list Metrics.batch.
Implicit Types (a : args) (st : state W M) (e : nat).

Lemma scalar_steps_app tag (t1 t2 : list (event W M)) :
  scalar_steps tag (t1 ++ t2) = scalar_steps tag t1 ++ scalar_steps tag t2.
Proof. apply omap_app. Qed.

Lemma figure_steps_app (t1 t2 : list (event W M)) :
  figure_steps (t1 ++ t2) = figure_steps t1 ++ figure_steps t2.
Proof. apply omap_app. Qed.

Lemma saved_epochs_app p (t1 t2 : list (event W M)) :
  saved_epochs p (t1 ++ t2) = saved_epochs p t1 ++ saved_epochs p t2.
Proof. apply omap_app. Qed.

(** The events of one epoch. *)
Lemma epoch_post_events a e st better cm :
  ∃ new,
    trace (epoch_post train_pass val_outputs a e st better cm) = trace st ++ new
    ∧ scalar_steps "Val/Accuracy" new = [e]
    ∧ figure_steps new = [e]
    ∧ saved_epochs (last_pt a) new = [e]
    ∧ saved_epochs (best_pt a) new = if better then [e] else [].
Proof.
  pose proof (last_pt_ne_best_pt a) as Hne.
  eexists. split; [reflexivity|].
  destruct better; repeat split;
    unfold scalar_steps, figure_steps, saved_epochs;
    cbn -[last_pt best_pt bool_decide];
    repeat case_bool_decide; try done; congruence.
Qed.

Lemma run_epochs_reports a es st0 :
  validation_nonempty val_outputs → ready a st0 →
  ∃ st evs,
    run_epochs train_pass val_outputs a es st0 = Ok st
    ∧ trace st = trace st0 ++ evs
    ∧ scalar_steps "Val/Accuracy" evs = es
    ∧ figure_steps evs = es
    ∧ saved_epochs (last_pt a) evs = es
    ∧ saved_epochs (best_pt a) evs `sublist_of` es
    ∧ num_classes (model st) = num_classes (model st0)
    ∧ last_epoch (scheduler st) = (last_epoch (scheduler st0) + Z.of_nat (length es))%Z.
Proof.
  intros Hval Hr. induction es as [|e es IH] using rev_ind.
  - exists st0, []. rewrite app_nil_r. repeat split; try done. simpl. lia.
  - destruct IH as (st1 & evs & Hrun & Htr & Hs & Hf & Hl & Hb & Hn & Hsch).
    destruct (run_epochs_total train_pass val_outputs a es st0 Hval Hr)
      as (st1' & Hrun' & Hr1).
    rewrite Hrun in Hrun'. injection Hrun' as <-.
    destruct (run_epoch_ok train_pass val_outputs a e st1 Hr1 (Hval _)) as (cm & Hep).
    destruct (epoch_post_events a e st1
                (py_gt (Num (epoch_accuracy train_pass val_outputs e st1)) (best_acc st1)) cm)
      as (new & Hnew & Hs' & Hf' & Hl' & Hb').
    eexists _, (evs ++ new). split.
    { rewrite run_epochs_snoc, Hrun. cbn [bind]. exact Hep. }
    split; [by rewrite Hnew, Htr, app_assoc|].
    rewrite scalar_steps_app, figure_steps_app, !saved_epochs_app.
    rewrite Hs, Hf, Hl, Hs', Hf', Hl', Hb'.
    split; [done|]. split; [done|]. split; [done|].
    split; [|split].
    + apply sublist_app; [done|]. destruct (py_gt _ _); [done|apply sublist_nil_l].
    + cbn [model epoch_post epoch_checkpoint ck_model num_classes]. done.
    + cbn [scheduler epoch_post scheduler_step fst last_epoch].
      rewrite Hsch, length_app. simpl. lia.
Qed.


(** X2.  [best.pt] and the running best.  After any number of epochs,
    either no epoch of the run beat the initial best, and then the running
    best and [best.pt] are as the run found them; or [best.pt] holds the
    checkpoint of an epoch of the run whose reported accuracy is the running
    best, which is above the initial best and above the [best_acc] stored in
    that checkpoint. *)
Theorem best_checkpoint_matches_running_best a es st0 :
  validation_nonempty val_outputs → ready a st0 →
  ∃ st evs,
    run_epochs train_pass val_outputs a es st0 = Ok st
    ∧ trace st = trace st0 ++ evs
    ∧ ((best_acc st = best_acc st0
        ∧ fs st !! best_pt a = fs st0 !! best_pt a
        ∧ saved_epochs (best_pt a) evs = [])
       ∨ (∃ ck, fs st !! best_pt a = Some (FS.File (Pickle ck))
                ∧ ck_epoch ck ∈ es
                ∧ AddScalar "Val/Accuracy" (Num (best_acc st)) (ck_epoch ck) ∈ evs
                ∧ (best_acc st0 < best_acc st)%Q
                ∧ (ck_best_acc ck < best_acc st)%Q)).
Proof.
  intros Hval Hr. induction es as [|e es IH] using rev_ind.
  - exists st0, []. rewrite app_nil_r. split; [done|]. split; [done|]. by left.
  - destruct IH as (st1 & evs & Hrun & Htr & Hinv).
    destruct (run_epochs_total train_pass val_outputs a es st0 Hval Hr)
      as (st1' & Hrun' & Hr1).
    rewrite Hrun in Hrun'. injection Hrun' as <-.
    destruct (run_epoch_ok train_pass val_outputs a e st1 Hr1 (Hval _)) as (cm & Hep).
    pose proof (last_pt_ne_best_pt a) as Hne.
    destruct (run_epochs_best train_pass val_outputs a es st0 st1 Hval Hr Hrun)
      as (evs' & Htr' & [_ Hmax]).
    assert (best_acc st0 <= best_acc st1)%Q as Hle
      by (apply Hmax, list_elem_of_here).
    eexists _, _. split.
    { rewrite run_epochs_snoc, Hrun. cbn [bind]. exact Hep. }
    split.
    { cbn [trace epoch_post]. rewrite Htr, <- app_assoc. reflexivity. }
    destruct (py_gt _ _) eqn:Hgt; cbn [fs best_acc epoch_post].
    + right. apply py_gt_lt in Hgt.
      exists (epoch_checkpoint train_pass a e st1).
      split; [apply lookup_insert_eq|]. cbn [epoch_checkpoint ck_epoch ck_best_acc].
      split; [apply elem_of_app; right; apply list_elem_of_here|].
      split; [apply elem_of_app; right; apply list_elem_of_here|].
      split; [|done]. eapply Qle_lt_trans; done.
    + unfold id. rewrite lookup_insert_ne by done. rewrite app_nil_r.
      destruct Hinv as [(Hb & Hfs & Hs)|(ck & Hfs & Hin & Hev & Hlt & Hck)].
      * left. split; [done|]. split; [done|].
        rewrite saved_epochs_app, Hs. unfold saved_epochs.
        cbn -[last_pt best_pt bool_decide].
        by rewrite bool_decide_eq_false_2.
      * right. exists ck. split; [done|].
        split; [apply elem_of_app; by left|].
        split; [apply elem_of_app; by left|]. done.
Qed.


End RunExtras.

(** * Further properties of the set-up and of whole runs *)

Section SetupExtras.
Import Train Observe.
Context {W M : Type}.
Variable train_pass : nat → Q → W * M → W * M.
Variable val_outputs : W → list Metrics.batch.
Implicit Types (a : args) (st : state W M) (d : gmap string (FS.node (content W M))).

Lemma dirname_plain p : FS.has_sep p = false → FS.dirname p = EmptyString.
Proof.
  destruct p as [|c r]; [done|]. simpl. intros H.
  apply orb_false_iff in H as [_ ->]. done.
Qed.

Lemma has_sep_join (x y : string) : x ≠ EmptyString → FS.has_sep (FS.join x y) = true.
Proof.
  intros Hx. unfold FS.join. rewrite decide_False by done.
  rewrite has_sep_app. apply orb_true_iff. right. reflexivity.
Qed.

Lemma prefix_has_sep (p q : string) :
  String.prefix (p +:+ "/") q = true → FS.has_sep q = true.
Proof.
  revert q. induction p as [|c p IH]; intros q.
  - change (EmptyString +:+ "/") with (String FS.sep EmptyString).
    destruct q as [|c' q]; cbn [String.prefix FS.has_sep]; [done|].
    destruct (Ascii.ascii_dec FS.sep c') as [<-|]; [|done]. intros _.
    by rewrite Ascii.eqb_refl.
  - change (String c p +:+ "/") with (String c (p +:+ "/")).
    destruct q as [|c' q]; cbn [String.prefix FS.has_sep]; [done|].
    destruct (Ascii.ascii_dec c c'); [|done]. intros H. apply IH in H.
    rewrite H. apply orb_true_r.
Qed.

Lemma within_plain p q : FS.has_sep q = false → q ≠ p → FS.within p q = false.
Proof.
  intros Hq Hne. unfold FS.within. rewrite bool_decide_eq_false_2 by done.
  apply not_true_is_false. intros H. apply prefix_has_sep in H. congruence.
Qed.

Lemma within_join p x : p ≠ EmptyString → FS.within p (FS.join p x) = true.
Proof.
  intros Hp. unfold FS.within, FS.join. rewrite decide_False by done.
  apply orb_true_iff. right. clear Hp.
  induction p as [|c p IH].
  - change (EmptyString +:+ "/") with (String FS.sep EmptyString).
    change (EmptyString +:+ "/" +:+ x) with (String FS.sep x).
    cbn [String.prefix]. destruct (Ascii.ascii_dec FS.sep FS.sep); [|done].
    by destruct x.
  - change (String c p +:+ "/") with (String c (p +:+ "/")).
    change (String c p +:+ "/" +:+ x) with (String c (p +:+ "/" +:+ x)).
    cbn [String.prefix]. by destruct (Ascii.ascii_dec c c).
Qed.

Lemma parent_ok_plain d p : FS.has_sep p = false → FS.parent_ok d p = true.
Proof. intros H. unfold FS.parent_ok. by rewrite dirname_plain, decide_True. Qed.

Lemma isfile_isdir_none d p :
  p ≠ EmptyString → FS.isfile d p = false → FS.isdir d p = false → d !! p = None.
Proof.
  unfold FS.isfile, FS.isdir, FS.stat. intros Hp. rewrite decide_False by done.
  by destruct (d !! p) as [[|c]|].
Qed.

(** On a clean disk the set-up goes through with whatever [resume] gave. *)
Lemma setup_clean a cats (w0 : W) (m0 : M) log d m o s b :
  clean_disk a log d →
  resume a d {| num_classes := cats; weights := w0 |} (adam0 a m0) = Ok (m, o, s, b) →
  ∃ st0,
    setup a cats w0 m0 log d = Ok (st0, s)
    ∧ model st0 = m ∧ optimizer st0 = o ∧ best_acc st0 = b
    ∧ trace st0 = [] ∧ scheduler st0 = sched0 a
    ∧ ready a st0
    ∧ FS.isdir (fs st0) (tensorboard_path a) = true
    ∧ fs st0 !! FS.join (tensorboard_path a) log = Some (FS.File Other)
    ∧ (∀ q, FS.within (tensorboard_path a) q = false → q ≠ trained_path a →
            fs st0 !! q = d !! q)
    ∧ (FS.isdir d (tensorboard_path a) = true →
       ∀ q, FS.within (tensorboard_path a) q = true → q ≠ tensorboard_path a →
            q ≠ FS.join (tensorboard_path a) log → fs st0 !! q = None).
Proof.
  intros ([Htb Htbs] & [Htp Htps] & [Hlog Hlogs] & Hne & Hftb & Hftp
          & Hdlog & Hdlast & Hdbest) Hres.
  set (tb := tensorboard_path a) in *. set (tp := trained_path a) in *.
  unfold setup. rewrite MultiStepLR_fresh, Hres. cbn [bind].
  fold tb tp. rewrite reset_tensorboard_ok by (done || by apply parent_ok_plain).
  cbn [bind].
  set (d0 := if FS.isdir d tb then FS.rmtree d tb else d).
  assert (Hwtp : FS.within tb tp = false) by (by apply within_plain).
  assert (Hd0dir : ∀ q, FS.isdir d q = false → FS.isdir d0 q = false).
  { intros q Hq. unfold d0. destruct (FS.isdir d tb); [|done].
    rewrite isdir_rmtree. by destruct (FS.within tb q). }
  assert (Hd0out : ∀ q, FS.within tb q = false → d0 !! q = d !! q).
  { intros q Hq. unfold d0. destruct (FS.isdir d tb); [|done].
    by rewrite rmtree_lookup, Hq. }
  assert (Hd0log : FS.isdir d0 (FS.join tb log) = false) by (by apply Hd0dir).
  assert (Hjtb : FS.join tb log ≠ tb).
  { intros E. pose proof (has_sep_join tb log Htb) as H. rewrite E in H. congruence. }
  assert (Hjtp : FS.join tb log ≠ tp).
  { intros E. pose proof (has_sep_join tb log Htb) as H. rewrite E in H. congruence. }
  assert (Hltp : last_pt a ≠ tp).
  { intros E. pose proof (has_sep_join tp "last.pt" Htp) as H.
    unfold last_pt in E. fold tp in E. rewrite E in H. congruence. }
  assert (Hbtp : best_pt a ≠ tp).
  { intros E. pose proof (has_sep_join tp "best.pt" Htp) as H.
    unfold best_pt in E. fold tp in E. rewrite E in H. congruence. }
  assert (Hltb : last_pt a ≠ tb).
  { intros E. pose proof (has_sep_join tp "last.pt" Htp) as H.
    unfold last_pt in E. fold tp in E. rewrite E in H. congruence. }
  assert (Hbtb : best_pt a ≠ tb).
  { intros E. pose proof (has_sep_join tp "best.pt" Htp) as H.
    unfold best_pt in E. fold tp in E. rewrite E in H. congruence. }
  (* the trained-model directory *)
  assert (∃ d2, ensure_trained (<[tb := FS.Dir]> d0) tp = Ok d2
                ∧ FS.isdir d2 tp = true
                ∧ (∀ q, q ≠ tp → d2 !! q = (<[tb := FS.Dir]> d0) !! q))
    as (d2 & Hens & Hd2tp & Hd2).
  { unfold ensure_trained.
    destruct (FS.isdir (<[tb := FS.Dir]> d0) tp) eqn:Hdir; cbn [negb].
    - eexists. split; [done|]. split; [done|done].
    - eexists. split.
      + apply mkdir_ok; [done| |by apply parent_ok_plain].
        rewrite lookup_insert_ne by done. rewrite Hd0out by done.
        apply isfile_isdir_none; [done|done|].
        rewrite isdir_insert_dir in Hdir by done.
        rewrite decide_False in Hdir by done.
        unfold FS.isdir, FS.stat in Hdir |- *. rewrite decide_False in Hdir |- * by done.
        by rewrite Hd0out in Hdir.
      + split.
        * rewrite isdir_insert_dir by done. by rewrite decide_True.
        * intros q Hq. by rewrite lookup_insert_ne. }
  rewrite Hens. cbn [bind].
  assert (Hisdir2 : ∀ q, q ≠ tp → q ≠ tb → FS.isdir d2 q = FS.isdir d0 q).
  { intros q H1 H2. unfold FS.isdir, FS.stat. case_decide; [done|].
    rewrite Hd2 by done. by rewrite lookup_insert_ne. }
  assert (Hd2tb : FS.isdir d2 tb = true).
  { apply isdir_lookup. split; [done|]. rewrite Hd2 by done. apply lookup_insert_eq. }
  unfold SummaryWriter. fold tb.
  rewrite write_file_ok;
    [|by apply join_nonempty|by rewrite Hisdir2|by apply parent_ok_join].
  cbn [bind]. eexists. split; [reflexivity|].
  cbn [model optimizer best_acc trace scheduler fs].
  do 5 (split; [done|]).
  assert (Hlast : FS.isdir (<[FS.join tb log := FS.File Other]> d2) (last_pt a) = false).
  { rewrite isdir_insert_file. case_decide; [done|].
    rewrite Hisdir2 by done. by apply Hd0dir. }
  assert (Hbest : FS.isdir (<[FS.join tb log := FS.File Other]> d2) (best_pt a) = false).
  { rewrite isdir_insert_file. case_decide; [done|].
    rewrite Hisdir2 by done. by apply Hd0dir. }
  split; [|split; [|split; [|split]]].
  - split; [|done]. cbn [fs].
    rewrite isdir_insert_file. case_decide as E; [by destruct Hjtp|done].
  - rewrite isdir_insert_file. case_decide as E; [by destruct Hjtb|done].
  - apply lookup_insert_eq.
  - intros q Hw Hq.
    assert (q ≠ tb) by (intros ->; by rewrite within_refl in Hw).
    assert (q ≠ FS.join tb log) by (intros ->; by rewrite within_join in Hw).
    rewrite lookup_insert_ne by done. rewrite Hd2 by done.
    rewrite lookup_insert_ne by done. by apply Hd0out.
  - intros Hdir q Hw Hq Hql.
    assert (q ≠ tp) by (intros ->; congruence).
    rewrite lookup_insert_ne by done. rewrite Hd2 by done.
    rewrite lookup_insert_ne by done. unfold d0. rewrite Hdir.
    by rewrite rmtree_lookup, Hw.
Qed.



(** X7.  A checkpoint of another class count stops the run: when the
    checkpoint path holds a checkpoint whose network has a class count other
    than that of the data set, [train] raises [RuntimeError] while loading
    the parameters, before it touches a directory. *)
Theorem class_count_mismatch_stops_the_run a cats (w0 : W) (m0 : M) log d p ck :
  checkpoint_path a = Some p → p ≠ EmptyString →
  d !! p = Some (FS.File (Pickle ck)) →
  num_classes (ck_model ck) ≠ cats →
  resume a d {| num_classes := cats; weights := w0 |} (adam0 a m0)
  = Raise RuntimeError
  ∧ setup a cats w0 m0 log d = Raise RuntimeError
  ∧ train train_pass val_outputs a cats w0 m0 log d = Raise RuntimeError.
Proof.
  intros Hp Hne Hd Hn.
  assert (resume a d {| num_classes := cats; weights := w0 |} (adam0 a m0)
          = Raise RuntimeError) as Hres.
  { unfold resume.
    assert (resumes a d = Some p) as ->.
    { rewrite resumes_spec, Hp.
      assert (FS.isfile d p = true) as -> by (apply isfile_lookup; eauto). done. }
    rewrite (torch_load_lookup d p ck) by done. cbn [bind].
    unfold load_state_dict. cbn [num_classes].
    destruct (Nat.eqb_spec (num_classes (ck_model ck)) cats); [done|]. done. }
  assert (setup a cats w0 m0 log d = Raise RuntimeError) as Hs.
  { unfold setup. by rewrite MultiStepLR_fresh, Hres. }
  split; [done|]. split; [done|]. unfold train. by rewrite Hs.
Qed.

(** X8.  A file in the place of the tensorboard directory stops the run:
    when the run does not resume and the tensorboard path names a file,
    [train] raises [FileExistsError] at [os.mkdir], before the first
    epoch. *)
Theorem tensorboard_path_is_a_file a cats (w0 : W) (m0 : M) log d :
  resumes a d = None → FS.isfile d (tensorboard_path a) = true →
  reset_tensorboard d (tensorboard_path a) = Raise FileExistsError
  ∧ train train_pass val_outputs a cats w0 m0 log d = Raise FileExistsError.
Proof.
  intros Hnone Hfile.
  assert (reset_tensorboard d (tensorboard_path a) = Raise FileExistsError) as Hreset.
  { unfold reset_tensorboard.
    apply isfile_lookup in Hfile as (Hne & c & Hc).
    assert (FS.isdir d (tensorboard_path a) = false) as ->.
    { unfold FS.isdir, FS.stat. rewrite decide_False by done. by rewrite Hc. }
    unfold FS.mkdir. rewrite decide_False by done. by rewrite Hc. }
  split; [done|]. unfold train, setup.
  rewrite MultiStepLR_fresh, resume_fresh by done. cbn [bind]. by rewrite Hreset.
Qed.

End SetupExtras.

(** * Further properties of the network and of the confusion matrix *)

Section NetExtras.
Import Net.

(** X9.  The shape rule of one block, in either mode: [make_block ci co]
    accepts exactly the 4-D inputs with [ci] channels whose sides are at
    least 6, and turns sides [h], [w] into [(h - 4) / 2], [(w - 4) / 2] with
    [co] channels, the batch dimension unchanged. *)
Theorem block_shape_rule (tr : bool) (ci co : nat) (x y : shape) :
  sequential tr (make_block ci co) x = Ok y
  ↔ ∃ b h w, x = [b; ci; h; w] ∧ 6 ≤ h ∧ 6 ≤ w
             ∧ y = [b; co; (h - 4) / 2; (w - 4) / 2].
Proof.
  split.
  - intros H. apply block_inv in H as (b & h & w & -> & Hh & Hw & ->).
    by exists b, h, w.
  - intros (b & h & w & -> & Hh & Hw & ->). by apply block_ok.
Qed.

(** X10.  The inputs the network accepts, in either mode: [forward]
    returns exactly on non-empty batches of 3-channel images whose sides are
    at least 76 and whose final feature map has 81 cells (9 by 9 for square
    images; 3 by 27 and the like otherwise), and then returns
    [batch; num_classes]. *)
Theorem forward_succeeds_iff (tr : bool) (nc : nat) (x y : shape) :
  forward tr (CNN_init nc) x = Ok y
  ↔ ∃ b h w, x = [b; 3; h; w] ∧ y = [b; nc] ∧ b ≠ 0 ∧ 76 ≤ h ∧ 76 ≤ w
             ∧ feature_side h * feature_side w = 81.
Proof.
  split.
  - unfold forward. intros H. apply bind_ok in H as (z & Hf & Hc).
    apply features_inv in Hf
      as (b & h & w & -> & Hb & _ & _ & _ & Hh & _ & _ & _ & Hw & ->).
    apply classifier_inv in Hc as [Hn ->].
    exists b, h, w. split; [done|]. split; [done|]. split; [done|].
    split; [by apply side3_large|]. split; [by apply side3_large|].
    unfold feature_side. unfold flat_size in Hn. rewrite fc1_constant in Hn. lia.
  - intros (b & h & w & -> & -> & Hb & Hh & Hw & Hs).
    unfold forward. rewrite features_ok by (done || by apply side3_large).
    cbn [bind]. unfold feature_side in Hs.
    replace (flat_size _ _) with 5184; [apply classifier_ok|].
    unfold flat_size. rewrite fc1_constant. lia.
Qed.

End NetExtras.

Section ConfusionExtras.
Import Metrics.

Lemma ascending_ext (l1 l2 : list nat) :
  ascending l1 → ascending l2 → (∀ x, x ∈ l1 ↔ x ∈ l2) → l1 = l2.
Proof.
  revert l2. induction l1 as [|a l1 IH]; intros [|b l2] H1 H2 Hext.
  - done.
  - exfalso. eapply elem_of_nil, Hext, list_elem_of_here.
  - exfalso. eapply elem_of_nil, Hext, list_elem_of_here.
  - destruct H1 as [Ha H1], H2 as [Hb H2].
    rewrite Forall_forall in Ha, Hb.
    assert (a = b) as ->.
    { assert (a ∈ b :: l2) as Hab by (apply Hext, list_elem_of_here).
      assert (b ∈ a :: l1) as Hba by (apply Hext, list_elem_of_here).
      apply elem_of_cons in Hab as [->|Hab]; [done|].
      apply elem_of_cons in Hba as [->|Hba]; [done|].
      apply Hb in Hab. apply Ha in Hba. lia. }
    f_equal. apply IH; [done|done|]. intros x. split; intros Hx.
    + assert (x ∈ b :: l2) as Hx' by (apply Hext; by right).
      apply elem_of_cons in Hx' as [->|Hx']; [|done].
      apply Ha in Hx. lia.
    + assert (x ∈ b :: l1) as Hx' by (apply Hext; by right).
      apply elem_of_cons in Hx' as [->|Hx']; [|done].
      apply Hb in Hx. lia.
Qed.

Lemma seq_ascending (s n : nat) : ascending (seq s n).
Proof.
  revert s. induction n as [|n IH]; intros s; simpl; [done|].
  split; [|apply IH]. apply Forall_forall. intros x Hx.
  apply elem_of_seq in Hx. lia.
Qed.

Lemma unique_labels_full (y_true y_pred : list nat) (n : nat) :
  (∀ c, c ∈ y_true ∨ c ∈ y_pred ↔ c < n) →
  unique_labels y_true y_pred = seq 0 n.
Proof.
  intros H. apply ascending_ext;
    [apply unique_labels_ascending|apply seq_ascending|].
  intros x. rewrite elem_of_unique_labels, H, elem_of_seq. lia.
Qed.

Lemma occurs_total (labels l : list nat) :
  NoDup labels → (∀ x, x ∈ l → x ∈ labels) →
  sum_list (map (λ t, occurs t l) labels) = length l.
Proof.
  intros Hnd. induction l as [|x l IH]; intros Hin.
  - unfold occurs. simpl. apply sum_list_zero.
  - rewrite (map_ext _ (λ t, (if decide (x = t) then 1 else 0) + occurs t l)).
    + rewrite sum_list_map_add, IH by (intros; apply Hin; by right).
      rewrite sum_indicator; [done|done|]. apply Hin. by left.
    + intros t. unfold occurs. rewrite filter_cons.
      by destruct (decide (x = t)).
Qed.

(** X11.  The two metrics of an epoch agree.  On the lists that the
    validation loop accumulates, [confusion_matrix] returns a square matrix
    whose trace is the number of correct samples and whose entries add up to
    the number of samples, so that the accuracy is the trace over the sum;
    the sum of a row is the number of samples whose ground truth is the label
    of that row. *)
Theorem epoch_matrix_agrees_with_accuracy (batches : list batch) :
  ∃ cm,
    confusion_matrix (validation_loop batches).1 (validation_loop batches).2 = Ok cm
    ∧ matrix_trace cm = correct batches
    ∧ sum_list (map sum_list cm) = total batches
    ∧ Forall (λ row, length row = length cm) cm
    ∧ (∀ i t, unique_labels (validation_loop batches).1 (validation_loop batches).2
                !! i = Some t →
              row_sum cm i = occurs t (validation_loop batches).1).
Proof.
  rewrite validation_loop_eq. cbn [fst snd].
  set (yt := map snd (concat batches)). set (yp := map predicted (concat batches)).
  assert (length yt = length yp) as Hlen by (unfold yt, yp; by rewrite !length_map).
  destruct (confusion_matrix yt yp) as [cm|err] eqn:Hcm.
  2:{ unfold confusion_matrix in Hcm. by rewrite Hlen, Nat.eqb_refl in Hcm. }
  destruct (confusion_matrix_by_labels yt yp cm Hcm) as (Hl & Hrows & Htr).
  exists cm. split; [done|].
  split.
  { rewrite Htr. unfold matches, correct. fold yt yp.
    unfold yt, yp. rewrite score_samples. apply count_true_samples. }
  pose proof (ascending_NoDup _ (unique_labels_ascending yt yp)) as Hnd.
  unfold confusion_matrix in Hcm. rewrite Hlen, Nat.eqb_refl in Hcm.
  injection Hcm as <-.
  split; [|split; [|done]].
  - rewrite <- list_fmap_compose.
    rewrite (map_ext _ (λ t, occurs t yt)).
    + rewrite occurs_total; [|done|].
      * rewrite total_length. unfold yt. by rewrite length_map.
      * intros x Hx. apply elem_of_unique_labels. by left.
    + intros t. simpl. rewrite row_cells; [by apply zip_firsts|done|].
      intros tp Htp. apply elem_of_zip in Htp as [_ H2].
      apply elem_of_unique_labels. by right.
  - apply Forall_forall. intros row Hrow.
    apply list_elem_of_fmap in Hrow as (t & -> & _). by rewrite !length_map.
Qed.

(** X12.  When the labels that occur among ground truths and predictions
    are exactly the classes 0 to [n - 1], the matrix is [n] by [n], its row
    [i] sums to the number of samples of class [i], and its cell [(i, j)]
    counts the samples of class [i] predicted as [j]. *)
Theorem confusion_matrix_full_coverage (y_true y_pred : list nat) (n : nat) :
  length y_true = length y_pred →
  (∀ c, c ∈ y_true ∨ c ∈ y_pred ↔ c < n) →
  ∃ cm,
    confusion_matrix y_true y_pred = Ok cm
    ∧ length cm = n
    ∧ Forall (λ row, length row = n) cm
    ∧ (∀ i, i < n → row_sum cm i = occurs i y_true)
    ∧ (∀ i j, i < n → j < n →
              cm !! i ≫= (.!! j) = Some (cell (zip y_true y_pred) i j)).
Proof.
  intros Hlen Hcov.
  pose proof (unique_labels_full y_true y_pred n Hcov) as HL.
  destruct (confusion_matrix y_true y_pred) as [cm|err] eqn:Hcm.
  2:{ unfold confusion_matrix in Hcm. by rewrite Hlen, Nat.eqb_refl in Hcm. }
  destruct (confusion_matrix_by_labels y_true y_pred cm Hcm) as (Hl & Hrows & _).
  exists cm. split; [done|]. rewrite HL, length_seq in Hl. split; [done|].
  unfold confusion_matrix in Hcm. rewrite Hlen, Nat.eqb_refl, HL in Hcm.
  injection Hcm as Hcm.
  split; [|split].
  - rewrite <- Hcm. apply Forall_forall. intros row Hrow.
    apply list_elem_of_fmap in Hrow as (t & -> & _). by rewrite length_map, length_seq.
  - intros i Hi. apply Hrows. rewrite HL. by apply lookup_seq_lt.
  - intros i j Hi Hj. rewrite <- Hcm.
    rewrite list_lookup_fmap, lookup_seq_lt by done. simpl.
    rewrite list_lookup_fmap, lookup_seq_lt by done. done.
Qed.

End ConfusionExtras.

(** * The loaders and the figure *)

Section LoaderExtras.
Import Loader.
Context {A : Type}.
Implicit Types (l : list A) (bs fuel : nat).

Lemma batched_spec fuel bs l :
  bs ≠ 0 → length l ≤ fuel →
  concat (batched fuel bs l) = l
  ∧ Forall (λ b, 0 < length b ≤ bs) (batched fuel bs l)
  ∧ concat (filter (λ b, length b = bs) (batched fuel bs l))
    = take (bs * (length l / bs)) l
  ∧ length (filter (λ b, length b = bs) (batched fuel bs l)) = length l / bs
  ∧ Forall (λ b, length b = bs) (filter (λ b, length b = bs) (batched fuel bs l)).
Proof.
  intros Hbs. revert l. induction fuel as [|fuel IH]; intros l Hl.
  - destruct l; [|simpl in Hl; lia]. simpl. rewrite Nat.Div0.div_0_l.
    repeat split; try done; try (by constructor). by rewrite take_nil.
  - destruct l as [|x l'] eqn:El.
    { simpl. rewrite Nat.Div0.div_0_l, Nat.mul_0_r.
      repeat split; try done; by constructor. }
    rewrite <- El in *. assert (l ≠ []) as Hne by (by rewrite El).
    assert (0 < length l) as Hpos by (rewrite El; simpl; lia).
    assert (batched (S fuel) bs l = take bs l :: batched fuel bs (drop bs l)) as ->
      by (by rewrite El).
    assert (length (drop bs l) ≤ fuel) as Hd by (rewrite length_drop; lia).
    destruct (IH (drop bs l) Hd) as (Hc & Hf & Hk & Hn & Hall).
    assert (length (take bs l) = bs `min` length l) as Htl by apply length_take.
    split; [|split; [|split; [|split]]].
    + simpl. by rewrite Hc, take_drop.
    + constructor; [lia|done].
    + rewrite filter_cons. destruct (decide (length (take bs l) = bs)) as [E|E].
      * assert (bs ≤ length l) as Hle by lia.
        assert (length l / bs = S ((length l - bs) / bs)) as Hq.
        { replace (length l) with ((length l - bs) + 1 * bs) at 1 by lia.
          rewrite Nat.div_add by done. lia. }
        simpl. rewrite Hk, length_drop, Hq, take_take_drop. f_equal. lia.
      * assert (length l < bs) as Hlt by lia.
        rewrite Hk, length_drop. rewrite !Nat.div_small by lia.
        by rewrite !Nat.mul_0_r.
    + rewrite filter_cons. destruct (decide (length (take bs l) = bs)) as [E|E].
      * simpl. rewrite Hn, length_drop.
        assert (bs ≤ length l) as Hle by lia.
        replace (length l) with ((length l - bs) + 1 * bs) at 2 by lia.
        rewrite Nat.div_add by done. lia.
      * rewrite Hn, length_drop. rewrite !Nat.div_small by lia. done.
    + rewrite filter_cons. destruct (decide (length (take bs l) = bs)) as [E|E];
        [constructor|]; done.
Qed.

(** X14.  The training loader ([drop_last] set): for a positive batch
    size there are [len / batch_size] batches, which is [num_iters], each of
    exactly [batch_size] items; together they are the first
    [len - len mod batch_size] items drawn, so the remainder is not trained
    on in that epoch. *)
Theorem training_loader_drops_remainder l bs :
  bs ≠ 0 →
  ∃ bl,
    DataLoader l bs true = Ok bl
    ∧ length bl = length l / bs
    ∧ Forall (λ b, length b = bs) bl
    ∧ concat bl = take (bs * (length l / bs)) l
    ∧ length (concat bl) = length l - length l `mod` bs.
Proof.
  intros Hbs. unfold DataLoader.
  destruct (Nat.eqb_spec bs 0) as [|_]; [done|].
  destruct (batched_spec (length l) bs l Hbs (le_n _)) as (_ & _ & Hc & Hn & Hall).
  eexists. split; [done|]. split; [done|]. split; [done|]. split; [done|].
  rewrite Hc, length_take.
  pose proof (Nat.div_mod_eq (length l) bs). lia.
Qed.

End LoaderExtras.

Section ValidationLoader.
Import Loader Metrics.

(** X15.  The validation loader ([drop_last] and [shuffle] unset): a
    batch size of zero is refused; otherwise the batches are non-empty, of at
    most [batch_size] items, and together are the validation samples in
    order, so that the lists the validation loop accumulates, and with them
    accuracy and confusion matrix, do not depend on the batch size. *)
Theorem validation_loader_covers_every_sample
  (samples : list (logits * nat)) (bs : nat) :
  DataLoader samples 0 false = Raise ValueError
  ∧ (bs ≠ 0 →
     ∃ bl,
       DataLoader samples bs false = Ok bl
       ∧ concat bl = samples
       ∧ Forall (λ b, 0 < length b ≤ bs) bl
       ∧ validation_loop bl = (map snd samples, map predicted samples)
       ∧ total bl = length samples).
Proof.
  split; [reflexivity|]. intros Hbs. unfold DataLoader.
  destruct (Nat.eqb_spec bs 0) as [|_]; [done|].
  destruct (batched_spec (length samples) bs samples Hbs (le_n _)) as (Hc & Hall & _).
  eexists. split; [done|]. split; [done|]. split; [done|].
  rewrite validation_loop_eq, total_length, Hc. done.
Qed.


End ValidationLoader.

Section PlotExtras.
Import Plot Metrics.
Variable around : Q → Q.

Lemma elem_of_concat {A : Type} (x : A) (ls : list (list A)) :
  x ∈ concat ls ↔ ∃ l, x ∈ l ∧ l ∈ ls.
Proof.
  induction ls as [|l ls IH]; simpl.
  - split; [by intros ?%elem_of_nil|]. intros (l & _ & H). by apply elem_of_nil in H.
  - rewrite elem_of_app, IH. split.
    + intros [H|(l' & H1 & H2)].
      * exists l. split; [done|apply list_elem_of_here].
      * exists l'. split; [done|by apply list_elem_of_further].
    + intros (l' & H1 & H2). apply elem_of_cons in H2 as [->|H2]; [by left|].
      right. by exists l'.
Qed.

Lemma occurs_zero (t : nat) (l : list nat) : t ∉ l → occurs t l = 0.
Proof.
  unfold occurs. induction l as [|y l IH]; intros Ht; [done|].
  rewrite filter_cons. rewrite decide_False.
  - apply IH. intros H. apply Ht. by right.
  - intros ->. apply Ht. by left.
Qed.

Lemma max2_nan_l (x : pyfloat) : max2 NaN x = NaN.
Proof. done. Qed.

Lemma max2_nan_r (x : pyfloat) : max2 x NaN = NaN.
Proof. by destruct x. Qed.

Lemma foldl_max2_nan (l : list pyfloat) : foldl max2 NaN l = NaN.
Proof. induction l as [|y l IH]; [done|]. simpl. apply IH. Qed.

Lemma foldl_max2_elem_nan (x : pyfloat) (l : list pyfloat) :
  NaN ∈ x :: l → foldl max2 x l = NaN.
Proof.
  revert x. induction l as [|y l IH]; intros x Hin.
  - apply list_elem_of_singleton in Hin as <-. done.
  - simpl. apply elem_of_cons in Hin as [<-|Hin].
    + simpl. apply foldl_max2_nan.
    + apply IH. apply elem_of_cons in Hin as [<-|Hin].
      * rewrite max2_nan_r. apply list_elem_of_here.
      * by apply list_elem_of_further.
Qed.

Lemma above_nan (v : pyfloat) : above v NaN = false.
Proof. by destruct v. Qed.

Lemma normalize_row_zero (row : list nat) :
  sum_list row = 0 → normalize_row around row = map (λ _, NaN) row.
Proof. intros H. unfold normalize_row. by rewrite H. Qed.

Lemma annotations_nan (cm : list (list nat)) (row : list nat) :
  row ∈ cm → row ≠ [] → sum_list row = 0 →
  matrix_max (normalize around cm) = Ok NaN.
Proof.
  intros Hin Hne Hs. unfold matrix_max.
  assert (NaN ∈ concat (normalize around cm)) as Hnan.
  { apply elem_of_concat. exists (normalize_row around row). split.
    - rewrite normalize_row_zero by done. destruct row as [|c row]; [done|].
      apply list_elem_of_here.
    - unfold normalize. by apply list_elem_of_fmap_2. }
  destruct (concat (normalize around cm)) as [|x r]; [by apply elem_of_nil in Hnan|].
  by rewrite foldl_max2_elem_nan.
Qed.

Lemma all_black (m : list (list pyfloat)) :
  Forall (λ t : nat * nat * pyfloat * color, t.2 = black)
    (concat (imap (λ i row,
               imap (λ j v, (j, i, v, if above v (halve NaN) then white else black)) row)
             m)).
Proof.
  apply Forall_forall. intros t Ht.
  apply elem_of_concat in Ht as (r & Ht & Hr).
  apply elem_of_lookup_imap in Hr as (i & row & -> & _).
  apply elem_of_lookup_imap in Ht as (j & v & -> & _).
  simpl. by rewrite above_nan.
Qed.

(** X13.  A label that is predicted but never true.  Its row of the
    normalised matrix is 0/0, not a number, throughout; so is the largest
    entry and the threshold, and every text of the figure is drawn black,
    whatever the rounding. *)
Theorem predicted_only_label_blackens_figure
  (y_true y_pred : list nat) (cm : list (list nat)) (t : nat) :
  confusion_matrix y_true y_pred = Ok cm →
  t ∈ y_pred → t ∉ y_true →
  ∃ texts,
    annotations around cm = Ok texts
    ∧ Forall (λ x, x.2 = black) texts
    ∧ ∃ i, unique_labels y_true y_pred !! i = Some t
           ∧ normalize around cm !! i
             = Some (replicate (length cm) NaN).
Proof.
  intros Hcm Hp Ht.
  destruct (confusion_matrix_by_labels y_true y_pred cm Hcm) as (Hl & Hrows & _).
  assert (t ∈ unique_labels y_true y_pred) as Hin
    by (apply elem_of_unique_labels; by right).
  apply list_elem_of_lookup in Hin as [i Hi].
  pose proof (Hrows i t Hi) as Hrow.
  assert (occurs t y_true = 0) as Hz by (by apply occurs_zero).
  rewrite Hz in Hrow. unfold row_sum in Hrow.
  assert (∃ row, cm !! i = Some row ∧ length row = length cm) as (row & Hci & Hlen).
  { unfold confusion_matrix in Hcm.
    destruct (length y_true =? length y_pred); [|done]. injection Hcm as <-.
    rewrite list_lookup_fmap, Hi. simpl. eexists. split; [done|].
    by rewrite !length_map. }
  rewrite Hci in Hrow. simpl in Hrow.
  assert (row ≠ []) as Hne.
  { intros ->. simpl in Hlen. apply lookup_lt_Some in Hci. lia. }
  unfold annotations.
  rewrite (annotations_nan cm row); [|by eapply list_elem_of_lookup_2|done|done].
  cbn [bind]. eexists. split; [done|]. split; [apply all_black|].
  exists i. split; [done|]. unfold normalize.
  rewrite list_lookup_fmap, Hci. simpl. rewrite normalize_row_zero by done.
  f_equal. rewrite <- Hlen. clear. induction row as [|c row IH]; [done|].
  simpl. by rewrite IH.
Qed.

End PlotExtras.

(** * The best accuracy over a run *)

Section BestExtras.
Import Train Observe.
Context {W M : Type}.
Variable train_pass : nat → Q → W * M → W * M.
Variable val_outputs : W → list Metrics.batch.
Implicit Types (a : args) (st : state W M).

Lemma fraction_bounds (c n : nat) :
  c ≤ n → 0 < n → (0 <= Metrics.fraction c n)%Q ∧ (Metrics.fraction c n <= 1)%Q.
Proof.
  intros Hc Hn. unfold Metrics.fraction.
  assert (0 < inject_Z (Z.of_nat n))%Q as Hpos.
  { change 0%Q with (inject_Z 0). rewrite <- Zlt_Qlt. lia. }
  split.
  - apply Qle_shift_div_l; [done|]. rewrite Qmult_0_l.
    change 0%Q with (inject_Z 0). rewrite <- Zle_Qle. lia.
  - apply Qle_shift_div_r; [done|]. rewrite Qmult_1_l.
    rewrite <- Zle_Qle. lia.
Qed.

Lemma correct_le_total (batches : list Metrics.batch) :
  Metrics.correct batches ≤ Metrics.total batches.
Proof.
  rewrite total_length. unfold Metrics.correct. apply length_filter.
Qed.

Lemma run_epochs_accuracies a es st0 :
  validation_nonempty val_outputs → ready a st0 →
  ∃ st evs,
    run_epochs train_pass val_outputs a es st0 = Ok st
    ∧ trace st = trace st0 ++ evs
    ∧ Forall (λ q, (0 <= q)%Q ∧ (q <= 1)%Q) (accuracies evs).
Proof.
  intros Hval Hr. induction es as [|e es IH] using rev_ind.
  - exists st0, []. simpl. rewrite app_nil_r. repeat split; constructor.
  - destruct IH as (st1 & evs & Hes & Htr & Hall).
    destruct (run_epochs_total train_pass val_outputs a es st0 Hval Hr)
      as (st1' & Hes' & Hr1).
    rewrite Hes in Hes'. injection Hes' as <-.
    rewrite run_epochs_snoc, Hes. simpl.
    destruct (run_epoch_ok train_pass val_outputs a e st1 Hr1 (Hval _)) as (cm & ->).
    eexists _, _. split; [done|]. split.
    + simpl. rewrite Htr, <- app_assoc. done.
    + rewrite accuracies_app. apply Forall_app. split; [done|].
      match goal with
      | |- Forall _ (accuracies ?t) =>
          replace (accuracies t) with [epoch_accuracy train_pass val_outputs e st1]
            by (destruct (negb _); reflexivity)
      end.
      constructor; [|constructor].
      apply fraction_bounds; [apply correct_le_total|apply Hval].
Qed.

(** X17.  The best accuracy over a run.  From a best accuracy between 0 and
    1 (0 for a fresh run), every accuracy the run reports lies between 0 and
    1, and the best accuracy at the end lies there too, is not below the one
    the run started with, and is not below any accuracy reported. *)
Theorem best_accuracy_bounds a es st0 :
  validation_nonempty val_outputs → ready a st0 →
  (0 <= best_acc st0)%Q → (best_acc st0 <= 1)%Q →
  ∃ st evs,
    run_epochs train_pass val_outputs a es st0 = Ok st
    ∧ trace st = trace st0 ++ evs
    ∧ Forall (λ q, (0 <= q)%Q ∧ (q <= 1)%Q ∧ (q <= best_acc st)%Q) (accuracies evs)
    ∧ (best_acc st0 <= best_acc st)%Q
    ∧ (0 <= best_acc st)%Q ∧ (best_acc st <= 1)%Q.
Proof.
  intros Hval Hr H0 H1.
  destruct (run_epochs_accuracies a es st0 Hval Hr) as (st & evs & Hrun & Htr & Hall).
  destruct (run_epochs_best train_pass val_outputs a es st0 st Hval Hr Hrun)
    as (evs' & Htr' & Hin & Hmax).
  rewrite Htr in Htr'. apply app_inv_head in Htr' as <-.
  exists st, evs. split; [done|]. split; [done|].
  rewrite Forall_forall in Hall.
  assert ((0 <= best_acc st)%Q ∧ (best_acc st <= 1)%Q) as [Hb0 Hb1].
  { apply elem_of_cons in Hin as [->|Hin]; [done|]. by apply Hall. }
  repeat split; try done.
  - apply Forall_forall. intros q Hq. destruct (Hall q Hq).
    repeat split; try done. apply Hmax. by right.
  - apply Hmax. by left.
Qed.

End BestExtras.

(** * Instances of the further properties *)

Section ExtraInstances.
Import Train Observe.

Lemma sample_clean_disk : clean_disk Sample.fresh_args Sample.log Sample.disk0.
Proof. repeat split; (discriminate || reflexivity). Defined.

Lemma done_clean_disk : clean_disk Sample.done_args Sample.log Sample.disk1.
Proof. repeat split; (discriminate || by vm_compute). Defined.

Lemma sample_labels_covered (c : nat) : c ∈ [0; 1] ∨ c ∈ [1; 1] ↔ c < 2.
Proof.
  rewrite !elem_of_cons, !elem_of_nil. lia.
Defined.

Lemma resume_after_epoch_witness :
  ∃ st',
    run_epoch Sample.train_pass Sample.val_outputs Sample.fresh_args 0 Sample.entry
    = Ok st'
    ∧ resume Sample.resume_args (fs st') {| num_classes := 2; weights := 9 |}
        (adam0 Sample.resume_args tt)
      = Ok ({| num_classes := 2; weights := weights (model st') |},
            {| group_lr := 1 # 100;
               initial_lr := initial_lr (optimizer st');
               moments := moments (optimizer st') |},
            0 + 1, 0%Q).
Proof.
  destruct (resume_after_epoch Sample.train_pass Sample.val_outputs
              Sample.fresh_args 0 Sample.entry Sample.resume_args
              {| num_classes := 2; weights := 9 |} (adam0 Sample.resume_args tt))
    as (st' & H1 & H2 & _);
    [exact sample_entry_ready|vm_compute; lia|reflexivity|reflexivity|].
  exists st'. split; [exact H1|exact H2].
Defined.

Lemma best_checkpoint_matches_running_best_witness :
  ∃ st evs,
    run_epochs Sample.train_pass Sample.val_outputs Sample.fresh_args
      [0; 1; 2] Sample.entry = Ok st
    ∧ trace st = trace Sample.entry ++ evs.
Proof.
  destruct (best_checkpoint_matches_running_best Sample.train_pass
              Sample.val_outputs Sample.fresh_args [0; 1; 2] Sample.entry
              sample_validation_nonempty sample_entry_ready)
    as (st & evs & H1 & H2 & _).
  exists st, evs. split; [exact H1|exact H2].
Defined.





Lemma class_count_mismatch_stops_the_run_witness :
  train Sample.train_pass Sample.val_outputs Sample.resume_args 3 0 tt
    Sample.log Sample.saved_disk = Raise RuntimeError.
Proof.
  apply (class_count_mismatch_stops_the_run Sample.train_pass Sample.val_outputs
           Sample.resume_args 3 0 tt Sample.log Sample.saved_disk
           "out/last.pt" Sample.saved);
    [reflexivity|discriminate|reflexivity|simpl; lia].
Defined.

Lemma tensorboard_path_is_a_file_witness :
  train Sample.train_pass Sample.val_outputs Sample.fresh_args 2 0 tt
    Sample.log Sample.file_disk = Raise FileExistsError.
Proof.
  apply (tensorboard_path_is_a_file Sample.train_pass Sample.val_outputs
           Sample.fresh_args 2 0 tt Sample.log Sample.file_disk);
    reflexivity.
Defined.

Lemma confusion_matrix_full_coverage_witness :
  ∃ cm,
    Metrics.confusion_matrix [0; 1] [1; 1] = Ok cm
    ∧ length cm = 2.
Proof.
  destruct (confusion_matrix_full_coverage [0; 1] [1; 1] 2)
    as (cm & H1 & H2 & _);
    [reflexivity|exact sample_labels_covered|].
  exists cm. split; [exact H1|exact H2].
Defined.

Lemma predicted_only_label_blackens_figure_witness :
  ∃ texts,
    Plot.annotations (λ q, q) [[1; 1]; [0; 0]] = Ok texts
    ∧ Forall (λ x, x.2 = Plot.black) texts.
Proof.
  destruct (predicted_only_label_blackens_figure (λ q, q)
              [0; 0] [0; 1] [[1; 1]; [0; 0]] 1)
    as (texts & H1 & H2 & _);
    [reflexivity|
     apply elem_of_cons; right; apply elem_of_cons; left; reflexivity|
     rewrite !elem_of_cons, elem_of_nil; lia|].
  exists texts. split; [exact H1|exact H2].
Defined.

Lemma training_loader_drops_remainder_witness :
  ∃ bl,
    Loader.DataLoader [1; 2; 3; 4; 5] 2 true = Ok bl
    ∧ length bl = 5 / 2
    ∧ Forall (λ b, length b = 2) bl.
Proof.
  destruct (training_loader_drops_remainder [1; 2; 3; 4; 5] 2)
    as (bl & H1 & H2 & H3 & _); [lia|].
  exists bl. repeat split; assumption.
Defined.

Lemma best_accuracy_bounds_witness :
  ∃ st evs,
    run_epochs Sample.train_pass Sample.val_outputs Sample.fresh_args
      [0; 1; 2] Sample.entry = Ok st
    ∧ trace st = trace Sample.entry ++ evs
    ∧ (0 <= best_acc st)%Q ∧ (best_acc st <= 1)%Q.
Proof.
  destruct (best_accuracy_bounds Sample.train_pass Sample.val_outputs
              Sample.fresh_args [0; 1; 2] Sample.entry
              sample_validation_nonempty sample_entry_ready)
    as (st & evs & H1 & H2 & _ & _ & H5 & H6);
    [by vm_compute|by vm_compute|].
  exists st, evs. repeat split; assumption.
Defined.
End ExtraInstances.
